(** * hardhat-zksync-zksync2js: factory-dependency resolution

    A shallow embedding of [packages/hardhat-zksync-zksync2js/src/helpers.ts].
    The functions embedded here are [getWallet], [getWallets],
    [loadArtifact], [extractFactoryDeps], [extractFactoryDepsRecursive],
    [getContractFactory], [getContractFactoryFromArtifact],
    [getContractFactoryByAbiAndBytecode], [getContractAt],
    [getContractAtFromArtifact] and [deployContract]. The signer helpers
    ([getSigners], [getSigner], [getImpersonatedSigner]) only pass their
    arguments on to the SDK and are left out.

    Modelling choices, all taken from the TypeScript source:
    - an artifact is a record; [factoryDeps] is a JavaScript object used as
      a map from dependency hash to contract identity, kept as the list of
      its own properties in creation order, and walked by [for_in], the
      enumeration order of a [for ... in] loop;
    - [visited] is a [Set<string>], of which only [has] and [add] are used:
      a [gset string] passed in and handed back;
    - [hre.artifacts] is a finite store from names to artifacts;
    - [await]ed calls either return or throw; every call to a collaborator
      (artifact store, wallet source, SDK constructors) is logged as an
      [event], so that "is never loaded" and "before any wallet is resolved"
      are statements about the log;
    - the recursion of [extractFactoryDepsRecursive] is not structural, so it
      carries a fuel argument; a fuel above the size of the store is never
      exhausted, and the result does not depend on it. *)

From Stdlib Require Import Ascii String NArith.
From stdpp Require Import base option list strings gmap sets.

Local Open Scope string_scope.
Local Open Scope list_scope.

#[local] Set Warnings "-clear-no-such-hyp".

(** ** JavaScript objects as ordered maps *)

Module Js.

(** Own enumerable string-keyed properties, in creation order. The keys
    of an actual object are pairwise distinct; nothing below needs it. *)
Definition object : Type := list (string * string).

Definition digit (c : ascii) : option N :=
  let n := N_of_ascii c in
  if ((48 <=? n) && (n <=? 57))%N then Some (n - 48)%N else None.

Fixpoint decimal (s : string) (acc : N) : option N :=
  match s with
  | EmptyString => Some acc
  | String c s' =>
      match digit c with
      | Some d => decimal s' (10 * acc + d)%N
      | None => None
      end
  end.

(** A property key is an array index when it is the canonical decimal
    spelling of an integer in [0, 2^32 - 2] (ECMAScript 6.1.7). *)
Definition array_index (key : string) : option N :=
  match key with
  | EmptyString => None
  | String c rest =>
      if Ascii.eqb c "0"%char
      then (if String.eqb rest "" then Some 0%N else None)
      else match decimal key 0 with
           | Some n => if (n <? 4294967295)%N then Some n else None
           | None => None
           end
  end.

Fixpoint insert_index (e : N * (string * string))
    (l : list (N * (string * string))) : list (N * (string * string)) :=
  match l with
  | [] => [e]
  | e' :: l' =>
      if (e.1 <=? e'.1)%N then e :: e' :: l' else e' :: insert_index e l'
  end.

Fixpoint index_entries (o : object) : list (N * (string * string)) :=
  match o with
  | [] => []
  | (k, v) :: o' =>
      match array_index k with
      | Some n => insert_index (n, (k, v)) (index_entries o')
      | None => index_entries o'
      end
  end.

Fixpoint named_entries (o : object) : list (string * string) :=
  match o with
  | [] => []
  | (k, v) :: o' =>
      match array_index k with
      | Some _ => named_entries o'
      | None => (k, v) :: named_entries o'
      end
  end.

(** [for (const k in o) { const v = o[k]; ... }]: the pairs [(k, v)] in
    the order the loop meets them (OrdinaryOwnPropertyKeys): array-index
    keys first, by ascending numeric value, then every other key in
    creation order. *)
Definition for_in (o : object) : list (string * string) :=
  (snd <$> index_entries o) ++ named_entries o.

(** No key of the object is an array index. *)
Definition plain_keys (o : object) : Prop :=
  Forall (λ kv, array_index kv.1 = None) o.

End Js.

(** ** Data model *)

Record ZkSyncArtifact : Type := mkArtifact {
  _format : string;
  sourceName : string;
  contractName : string;
  abi : list string;
  bytecode : string;
  factoryDeps : Js.object
}.

(** The identity used to seed the visited set:
    [`${artifact.sourceName}:${artifact.contractName}`]. *)
Definition identity (artifact : ZkSyncArtifact) : string :=
  sourceName artifact +:+ ":" +:+ contractName artifact.

Definition Wallet : Type := string.
Definition DeploymentType : Type := string.

Record FactoryOptions : Type := mkFactoryOptions {
  wallet : option Wallet
}.

(** The argument [walletOrOptions?: Wallet | FactoryOptions]. *)
Inductive WalletOrOptions : Type :=
| Undefined
| IsWallet (w : Wallet)
| IsFactoryOptions (o : FactoryOptions).

Record ContractFactory : Type := mkContractFactory {
  cf_abi : list string;
  cf_bytecode : string;
  cf_wallet : Wallet;
  cf_deploymentType : option DeploymentType
}.

(** Errors a call can throw. *)
Inductive error : Type :=
| ZkSync2JsPluginError (message : string)
| ArtifactNotFound (name : string)
| ExternalError (message : string).

(** Calls into collaborators, in the order they are made. *)
Inductive event : Type :=
| ReadArtifact (name : string)
| GetWalletsFromAccount
| NewWallet (privateKey : string)
| NewContractFactory (f : ContractFactory).

(** The part of the Hardhat runtime environment that the helpers read. *)
Record HardhatRuntimeEnvironment : Type := mkHre {
  artifacts : gmap string ZkSyncArtifact;
  accountWallets : error + list Wallet
}.

(** ** Calls that log, return or throw *)

Inductive outcome (A : Type) : Type :=
| Returned (a : A)
| Thrown (e : error)
| OutOfFuel.
Arguments Returned {A} a.
Arguments Thrown {A} e.
Arguments OutOfFuel {A}.

Definition M (A : Type) : Type := list event * outcome A.

Definition ret {A} (a : A) : M A := ([], Returned a).
Definition throw {A} (e : error) : M A := ([], Thrown e).
Definition emit (ev : event) : M unit := ([ev], Returned tt).
Definition out_of_fuel {A} : M A := ([], OutOfFuel).

Definition bind {A B} (m : M A) (k : A → M B) : M B :=
  match m.2 with
  | Returned a => (m.1 ++ (k a).1, (k a).2)
  | Thrown e => (m.1, Thrown e)
  | OutOfFuel => (m.1, OutOfFuel)
  end.

Notation "'await' x ':=' m 'in' k" := (bind m (λ x, k))
  (at level 10, x pattern, m at level 100, k at level 200, only parsing).

Definition dquote : string := String "034"%char "".
Definition newline : string := String "010"%char "".

(** ** The helpers *)

(** The argument [privateKeyOrIndex?: string | number] of [getWallet]; an
    index is a natural number here. *)
Inductive KeyOrIndex : Type :=
| NoKeyOrIndex
| PrivateKey (key : string)
| AccountNumber (n : nat).

Section Helpers.

(** Exported by [./constants], which is not part of the sources at hand. *)
Variable ZKSOLC_ARTIFACT_FORMAT_VERSION : string.
Variable ZKVYPER_ARTIFACT_FORMAT_VERSION : string.

(** The type guard exported by [./utils]. *)
Variable isArtifact : ZkSyncArtifact → bool.

Variable hre : HardhatRuntimeEnvironment.

(** [hre.artifacts.readArtifact(name)]: Hardhat's artifact store. A name
    without an artifact makes it throw its not-found error for that name. *)
Definition readArtifact (name : string) : M ZkSyncArtifact :=
  await _ := emit (ReadArtifact name) in
  match artifacts hre !! name with
  | Some artifact => ret artifact
  | None => throw (ArtifactNotFound name)
  end.

(** [getWalletsFromAccount(hre, hre.network.config.accounts)]. *)
Definition getWalletsFromAccount : M (list Wallet) :=
  await _ := emit GetWalletsFromAccount in
  match accountWallets hre with
  | inl e => throw e
  | inr wallets => ret wallets
  end.

Definition getWallet (privateKeyOrIndex : KeyOrIndex) : M Wallet :=
  let privateKey :=
    match privateKeyOrIndex with PrivateKey k => Some k | _ => None end in
  let accountNumber :=
    match privateKeyOrIndex with AccountNumber n => Some n | _ => None end in
  match privateKey with
  | Some (String c k) =>
      await _ := emit (NewWallet (String c k)) in ret (String c k)
  | _ =>
      await wallets := getWalletsFromAccount in
      if match accountNumber with
         | Some (S n) => Nat.leb (length wallets) (S n)
         | _ => false
         end
      then throw (ZkSync2JsPluginError
                    "Account private key with specified index is not found")
      else if Nat.eqb (length wallets) 0
      then throw (ZkSync2JsPluginError
                    "Accounts are not configured for this network")
      else
        match wallets !! default 0 accountNumber with
        | Some w => ret w
        | None => throw (ExternalError "undefined wallet")
        end
  end.

Definition not_compiled_message (name : string) : string :=
  "Artifact " +:+ name +:+ " was not compiled by zksolc or zkvyper".

Definition loadArtifact (contractNameOrFullyQualifiedName : string)
    : M ZkSyncArtifact :=
  await artifact := readArtifact contractNameOrFullyQualifiedName in
  if negb (String.eqb (_format artifact) ZKSOLC_ARTIFACT_FORMAT_VERSION)
     && negb (String.eqb (_format artifact) ZKVYPER_ARTIFACT_FORMAT_VERSION)
  then throw (ZkSync2JsPluginError
                (not_compiled_message contractNameOrFullyQualifiedName))
  else ret artifact.

(** The body of the [for ... in] loop of [extractFactoryDepsRecursive],
    over the entries still to visit; [recurse] is the recursive call.
    [factoryDeps] is the local array, [visited] the shared set. *)
Fixpoint for_dependencyHash
    (recurse : ZkSyncArtifact → gset string → M (list string * gset string))
    (entries : list (string * string))
    (factoryDeps : list string) (visited : gset string)
    : M (list string * gset string) :=
  match entries with
  | [] => ret (factoryDeps, visited)
  | (dependencyHash, dependencyContract) :: entries' =>
      if bool_decide (dependencyContract ∈ visited)
      then for_dependencyHash recurse entries' factoryDeps visited
      else
        await dependencyArtifact := loadArtifact dependencyContract in
        let factoryDeps := factoryDeps ++ [bytecode dependencyArtifact] in
        let visited := visited ∪ {[dependencyContract]} in
        await (transitiveDeps, visited) := recurse dependencyArtifact visited in
        let factoryDeps := factoryDeps ++ transitiveDeps in
        for_dependencyHash recurse entries' factoryDeps visited
  end.

(** Returns the local array together with the set as the call left it. *)
Fixpoint extractFactoryDepsRecursive (fuel : nat)
    (artifact : ZkSyncArtifact) (visited : gset string)
    : M (list string * gset string) :=
  match fuel with
  | 0 => out_of_fuel
  | S fuel' =>
      for_dependencyHash (extractFactoryDepsRecursive fuel')
        (Js.for_in (factoryDeps artifact)) [] visited
  end.

Definition extractFactoryDeps (fuel : nat) (artifact : ZkSyncArtifact)
    : M (list string) :=
  let visited : gset string := ∅ in
  let visited := visited ∪ {[identity artifact]} in
  await (deps, _) := extractFactoryDepsRecursive fuel artifact visited in
  ret deps.

Definition abstract_message (name : string) : string :=
  "You are trying to create a contract factory for the contract " +:+ name
  +:+ ", which is abstract and can't be deployed." +:+ newline
  +:+ "If you want to call a contract using " +:+ name
  +:+ " as its interface use the " +:+ dquote +:+ "getContractAt" +:+ dquote
  +:+ " function instead.".

Definition getContractFactoryByAbiAndBytecode
    (abi : list string) (bytecode : string)
    (wallet : option Wallet) (deploymentType : option DeploymentType)
    : M ContractFactory :=
  await wallet :=
    match wallet with
    | None => getWallet NoKeyOrIndex
    | Some w => ret w
    end in
  let factory := mkContractFactory abi bytecode wallet deploymentType in
  await _ := emit (NewContractFactory factory) in
  ret factory.

Definition getContractFactoryFromArtifact
    (artifact : ZkSyncArtifact) (walletOrOptions : WalletOrOptions)
    (deploymentType : option DeploymentType) : M ContractFactory :=
  if negb (isArtifact artifact)
  then throw (ZkSync2JsPluginError
    "You are trying to create a contract factory from an artifact, but you have not passed a valid artifact parameter.")
  else
    let wallet :=
      match walletOrOptions with
      | IsFactoryOptions o => wallet o
      | IsWallet w => Some w
      | Undefined => None
      end in
    if String.eqb (bytecode artifact) "0x"
    then throw (ZkSync2JsPluginError
                  (abstract_message (contractName artifact)))
    else getContractFactoryByAbiAndBytecode
           (abi artifact) (bytecode artifact) wallet deploymentType.

End Helpers.

(** ** The traversal order the resolver is meant to realise *)

Section Order.

Variable ZKSOLC_ARTIFACT_FORMAT_VERSION : string.
Variable ZKVYPER_ARTIFACT_FORMAT_VERSION : string.
Variable hre : HardhatRuntimeEnvironment.

(** How the entries of a [factoryDeps] mapping are enumerated. *)
Variable enum : Js.object → list (string * string).

(** Pre-order, depth-first, first-discovery traversal, told with a
    worklist of identities still to look at and the set of identities
    seen so far. [preorder todo seen loads out r]: starting from [todo]
    and [seen], the identities in [loads] are discovered and loaded, in
    that order, their bytecodes are [out], and the traversal either runs
    to its end ([r = None]) or stops at the first load that fails with
    [e] ([r = Some e]). An identity already seen is dropped; a new one is
    loaded, its bytecode recorded, and its own dependencies are looked at
    before the rest of the worklist. *)
Inductive preorder :
    list string → gset string → list string → list string →
    option error → Prop :=
| preorder_end seen :
    preorder [] seen [] [] None
| preorder_skip d todo seen loads out r :
    d ∈ seen →
    preorder todo seen loads out r →
    preorder (d :: todo) seen loads out r
| preorder_visit d a todo seen loads out r :
    d ∉ seen →
    loadArtifact ZKSOLC_ARTIFACT_FORMAT_VERSION
      ZKVYPER_ARTIFACT_FORMAT_VERSION hre d
      = ([ReadArtifact d], Returned a) →
    preorder ((enum (factoryDeps a)).*2 ++ todo) (seen ∪ {[d]}) loads out r →
    preorder (d :: todo) seen (d :: loads) (bytecode a :: out) r
| preorder_abort d e todo seen :
    d ∉ seen →
    loadArtifact ZKSOLC_ARTIFACT_FORMAT_VERSION
      ZKVYPER_ARTIFACT_FORMAT_VERSION hre d
      = ([ReadArtifact d], Thrown e) →
    preorder (d :: todo) seen [d] [] (Some e).

(** Identities the traversal from [root] can come across: the root's own
    dependencies, and the dependencies of every artifact that loads, the
    root's identity excepted (it is never loaded). *)
Inductive referenced (root : ZkSyncArtifact) : string → Prop :=
| referenced_root d :
    d ∈ (factoryDeps root).*2 →
    referenced root d
| referenced_dep d a d' :
    referenced root d →
    d ≠ identity root →
    loadArtifact ZKSOLC_ARTIFACT_FORMAT_VERSION
      ZKVYPER_ARTIFACT_FORMAT_VERSION hre d
      = ([ReadArtifact d], Returned a) →
    d' ∈ (factoryDeps a).*2 →
    referenced root d'.

End Order.

(** The format tag is one of the two the loader accepts. *)
Definition recognised (zksolc zkvyper : string) (a : ZkSyncArtifact) : Prop :=
  _format a = zksolc ∨ _format a = zkvyper.

(** What a call hands back for a traversal that ended with [r]. *)
Definition handed_back {A} (r : option error) (a : A) : outcome A :=
  match r with
  | None => Returned a
  | Some e => Thrown e
  end.

(** The same store with every bytecode rewritten by [f]. *)
Definition map_bytecode (f : string → string) (a : ZkSyncArtifact)
    : ZkSyncArtifact :=
  mkArtifact (_format a) (sourceName a) (contractName a) (abi a)
    (f (bytecode a)) (factoryDeps a).

Definition map_bytecode_hre (f : string → string)
    (hre : HardhatRuntimeEnvironment) : HardhatRuntimeEnvironment :=
  mkHre (map_bytecode f <$> artifacts hre) (accountWallets hre).

(** The result of a call with its returned value rewritten by [g]. *)
Definition M_map {A B} (g : A → B) (m : M A) : M B :=
  (m.1,
   match m.2 with
   | Returned a => Returned (g a)
   | Thrown e => Thrown e
   | OutOfFuel => OutOfFuel
   end).

(** [extractFactoryDeps] follows the pre-order traversal in which every
    [factoryDeps] mapping is enumerated by [enum]: its log is the loads of
    the traversal from the root's dependencies, with the root's identity
    seen, and it returns the bytecodes collected, or throws what the
    traversal stopped at. *)
Definition follows_order (enum : Js.object → list (string * string))
    (zksolc zkvyper : string) (hre : HardhatRuntimeEnvironment)
    (fuel : nat) (root : ZkSyncArtifact) : Prop :=
  ∃ loads out r,
    extractFactoryDeps zksolc zkvyper hre fuel root
    = (ReadArtifact <$> loads, handed_back r out)
    ∧ preorder zksolc zkvyper hre enum
        (enum (factoryDeps root)).*2 {[identity root]} loads out r.

(** Enumeration in creation (insertion) order. *)
Definition insertion_order (o : Js.object) : list (string * string) := o.

(** ** Sample build outputs *)

Module Scenario.

Definition zksolc : string := "hh-zksolc-artifact-1".
Definition zkvyper : string := "hh-zkvyper-artifact-1".

Definition contract (format name code : string) (deps : Js.object)
    : ZkSyncArtifact :=
  mkArtifact format "src" name [] code deps.

Definition store (l : list ZkSyncArtifact) : HardhatRuntimeEnvironment :=
  mkHre (list_to_map ((λ a, (identity a, a)) <$> l)) (inr []).

(** A → {B, C}, B → {D}, C → {D}, D → {}. *)
Definition A := contract zksolc "A" "0xaa" [("h1", "src:B"); ("h2", "src:C")].
Definition B := contract zksolc "B" "0xbb" [("h3", "src:D")].
Definition C := contract zkvyper "C" "0xcc" [("h4", "src:D")].
Definition D := contract zksolc "D" "0xdd" [].
Definition diamond := store [A; B; C; D].

(** The same A and its dependencies, with hash keys that are array
    indices: B is entered under "2" before C under "1". *)
Definition A_indexed :=
  contract zksolc "A" "0xaa" [("2", "src:B"); ("1", "src:C")].
Definition indexed := store [A_indexed; B; C; D].

(** Two keys of one mapping for the same identity, and the key "h1" in
    two mappings for two identities. *)
Definition A_twice :=
  contract zksolc "A" "0xaa" [("h1", "src:B"); ("h2", "src:B")].
Definition B_same_key := contract zksolc "B" "0xbb" [("h1", "src:D")].
Definition rekeyed := store [A_twice; B_same_key; D].

(** A → B → A. *)
Definition A_cyclic := contract zksolc "A" "0xaa" [("h1", "src:B")].
Definition B_cyclic := contract zksolc "B" "0xbb" [("h2", "src:A")].
Definition cycle := store [A_cyclic; B_cyclic].

(** A declares itself. *)
Definition A_self := contract zksolc "A" "0xaa" [("h1", "src:A")].
Definition selfish := store [A_self].

(** A → B → {Missing, D}: no artifact is stored for Missing. *)
Definition B_dangling :=
  contract zksolc "B" "0xbb" [("h2", "src:Missing"); ("h3", "src:D")].
Definition dangling := store [A_cyclic; B_dangling; D].

(** A → B → E, where E was compiled by plain solc. *)
Definition B_foreign := contract zksolc "B" "0xbb" [("h2", "src:E")].
Definition E := contract "hh-sol-artifact-1" "E" "0xee" [].
Definition foreign := store [A_cyclic; B_foreign; E].

(** A → I → D, where I is abstract. *)
Definition A_over_abstract := contract zksolc "A" "0xaa" [("h1", "src:I")].
Definition I := contract zksolc "I" "0x" [("h2", "src:D")].
Definition with_abstract := store [A_over_abstract; I; D].

Definition leaf := D.

End Scenario.

(** ** The other helpers of [helpers.ts] *)

(** What a [Contract] runs its calls through. *)
Inductive Runner : Type :=
| WalletRunner (w : Wallet)
| ProviderRunner.

(** A [Contract] of the SDK: the constructor keeps the target, the
    interface and the runner it is given; [runner] is [null] when none
    is. *)
Record Contract : Type := mkContract {
  target : string;
  interface : list string;
  runner : option Runner
}.

(** Values held by the fields of [overrides] and of its [customData]. *)
Inductive JsValue : Type :=
| JsString (s : string)
| JsStrings (l : list string).

(** The argument [overrides?: ethers.Overrides]: its [customData] field,
    when it has one, and its other fields. *)
Record Overrides : Type := mkOverrides {
  customData : option (gmap string JsValue);
  otherOverrides : gmap string JsValue
}.

(** The last argument of [factory.deploy]:
    [{ ..._overrides, customData: { ... } }]. *)
Record DeployOverrides : Type := mkDeployOverrides {
  deploy_overrides : gmap string JsValue;
  deploy_customData : gmap string JsValue
}.

(** Calls made by the helpers below: those of the helpers above, and the
    calls into the SDK's contracts. *)
Inductive action : Type :=
| Helper (ev : event)
| NewContract (c : Contract)
| Connect (c : Contract)
| Deploy (factory : ContractFactory) (arguments : list string)
    (overrides : DeployOverrides)
| WaitForDeployment (c : Contract).

(** What the SDK answers: [ethers.ZeroHash], [ethers.hexlify(val)],
    [factory.deploy(...)] and [contract.waitForDeployment()]; the last
    three may throw. *)
Record Sdk : Type := mkSdk {
  ZeroHash : string;
  hexlify : string → error + string;
  deployed : ContractFactory → list string → DeployOverrides →
             error + Contract;
  waited : Contract → option error
}.

Definition Run (A : Type) : Type := list action * outcome A.

Definition run_ret {A} (a : A) : Run A := ([], Returned a).
Definition run_throw {A} (e : error) : Run A := ([], Thrown e).
Definition act (a : action) : Run unit := ([a], Returned tt).

Definition run_bind {A B} (m : Run A) (k : A → Run B) : Run B :=
  match m.2 with
  | Returned a => (m.1 ++ (k a).1, (k a).2)
  | Thrown e => (m.1, Thrown e)
  | OutOfFuel => (m.1, OutOfFuel)
  end.

(** A call of one of the helpers above, made from one of the helpers
    below. *)
Definition helper {A} (m : M A) : Run A := (Helper <$> m.1, m.2).

Notation "'perform' x ':=' m 'in' k" := (run_bind m (λ x, k))
  (at level 10, x pattern, m at level 100, k at level 200, only parsing).


(** The argument [nameOrAbi: string | any[]] of [getContractAt]. *)
Inductive NameOrAbi : Type :=
| Name (name : string)
| Abi (abi : list string).

Section MoreHelpers.

Variable ZKSOLC_ARTIFACT_FORMAT_VERSION : string.
Variable ZKVYPER_ARTIFACT_FORMAT_VERSION : string.
Variable isArtifact : ZkSyncArtifact → bool.
Variable hre : HardhatRuntimeEnvironment.
Variable sdk : Sdk.

Definition getWallets : M (list Wallet) :=
  getWalletsFromAccount hre.


(** [new Contract(address, abi, runner)]. *)
Definition newContract (address : string) (abi : list string)
    (runner : Runner) : Run Contract :=
  let contract := mkContract address abi (Some runner) in
  perform _ := act (NewContract contract) in
  run_ret contract.

(** [contract.connect(hre.zksync2js.provider)]. *)
Definition connectProvider (contract : Contract) : Run Contract :=
  perform _ := act (Connect contract) in
  run_ret (mkContract (target contract) (interface contract)
             (Some ProviderRunner)).

Definition getContractAtFromArtifact
    (artifact : ZkSyncArtifact) (address : string) (wallet : option Wallet)
    : Run Contract :=
  if negb (isArtifact artifact)
  then run_throw (ZkSync2JsPluginError
    "You are trying to create a contract by artifact, but you have not passed a valid artifact parameter.")
  else
    perform wallet :=
      match wallet with
      | None => helper (getWallet hre NoKeyOrIndex)
      | Some w => run_ret w
      end in
    perform contract :=
      newContract address (abi artifact) (WalletRunner wallet) in
    perform contract :=
      match runner contract with
      | None => connectProvider contract
      | Some _ => run_ret contract
      end in
    run_ret contract.

Definition getContractAt
    (nameOrAbi : NameOrAbi) (address : string) (wallet : option Wallet)
    : Run Contract :=
  match nameOrAbi with
  | Name name =>
      perform artifact :=
        helper (loadArtifact ZKSOLC_ARTIFACT_FORMAT_VERSION
                  ZKVYPER_ARTIFACT_FORMAT_VERSION hre name) in
      getContractAtFromArtifact artifact address wallet
  | Abi abi =>
      perform wallet :=
        match wallet with
        | None =>
            perform w := helper (getWallet hre NoKeyOrIndex) in
            run_ret (Some w)
        | Some w => run_ret (Some w)
        end in
      let walletOrProvider :=
        match wallet with
        | Some w => WalletRunner w
        | None => ProviderRunner
        end in
      newContract address abi walletOrProvider
  end.

(** [additionalFactoryDeps.map((val) => ethers.hexlify(val))]: stops at the
    first value [hexlify] rejects. *)
Fixpoint hexlify_each (vals : list string) : Run (list string) :=
  match vals with
  | [] => run_ret []
  | val :: vals' =>
      match hexlify sdk val with
      | inl e => run_throw e
      | inr hex =>
          perform rest := hexlify_each vals' in
          run_ret (hex :: rest)
      end
  end.

(** [factory.deploy(...constructorArguments, overrides)]. *)
Definition deploy (factory : ContractFactory) (arguments : list string)
    (overrides : DeployOverrides) : Run Contract :=
  perform _ := act (Deploy factory arguments overrides) in
  match deployed sdk factory arguments overrides with
  | inl e => run_throw e
  | inr contract => run_ret contract
  end.

(** [contract.waitForDeployment()]. *)
Definition waitForDeployment (contract : Contract) : Run unit :=
  perform _ := act (WaitForDeployment contract) in
  match waited sdk contract with
  | Some e => run_throw e
  | None => run_ret tt
  end.

(** [constructorArguments] is [[]] when the caller leaves it out. *)
Definition deployContract (fuel : nat)
    (artifact : ZkSyncArtifact) (wallet : option Wallet)
    (constructorArguments : list string) (overrides : option Overrides)
    (additionalFactoryDeps : option (list string)) : Run Contract :=
  perform wallet :=
    match wallet with
    | None => helper (getWallet hre NoKeyOrIndex)
    | Some w => run_ret w
    end in
  let factory :=
    mkContractFactory (abi artifact) (bytecode artifact) wallet None in
  perform _ := act (Helper (NewContractFactory factory)) in
  perform baseDeps :=
    helper (extractFactoryDeps ZKSOLC_ARTIFACT_FORMAT_VERSION
              ZKVYPER_ARTIFACT_FORMAT_VERSION hre fuel artifact) in
  perform additionalDeps :=
    match additionalFactoryDeps with
    | Some vals => hexlify_each vals
    | None => run_ret []
    end in
  let factoryDeps := baseDeps ++ additionalDeps in
  let customData' :=
    match overrides with
    | Some o => default ∅ (customData o)
    | None => ∅
    end in
  let _overrides :=
    match overrides with
    | Some o => otherOverrides o
    | None => ∅
    end in
  perform contract :=
    deploy factory constructorArguments
      (mkDeployOverrides _overrides
         (<["factoryDeps" := JsStrings factoryDeps]>
            (<["salt" := JsString (ZeroHash sdk)]> customData'))) in
  perform _ := waitForDeployment contract in
  run_ret contract.

End MoreHelpers.


(** The [Deploy] calls of a log. *)
Definition deploys (log : list action)
    : list (ContractFactory * list string * DeployOverrides) :=
  omap (λ a, match a with
             | Deploy f args o => Some (f, args, o)
             | _ => None
             end) log.

(** A sample SDK: [hexlify] accepts what starts with "0x", a deployment
    lands at "0xc0de", and waiting succeeds. *)
Definition sample_sdk : Sdk :=
  mkSdk "0x00"
    (λ val, if String.prefix "0x" val then inr val
            else inl (ExternalError "invalid BytesLike value"))
    (λ f _ _, inr (mkContract "0xc0de" (cf_abi f)
                     (Some (WalletRunner (cf_wallet f)))))
    (λ _, None).

(** * Properties *)

(** ** Enumeration order of [for ... in] *)

Module JsFacts.
Import Js.

Lemma insert_index_perm e l : insert_index e l ≡ₚ e :: l.
Proof.
  induction l as [|e' l IH]; simpl; [done|].
  destruct (e.1 <=? e'.1)%N; [done|].
  rewrite IH. apply Permutation_swap.
Qed.

Lemma for_in_perm (o : object) : for_in o ≡ₚ o.
Proof.
  unfold for_in. induction o as [|[k v] o IH]; simpl; [done|].
  destruct (array_index k) as [n|].
  - rewrite insert_index_perm. simpl. by rewrite IH.
  - rewrite <- Permutation_middle. by rewrite IH.
Qed.

Lemma elem_of_for_in (o : object) kv : kv ∈ for_in o ↔ kv ∈ o.
Proof. by rewrite for_in_perm. Qed.

Lemma elem_of_for_in_values (o : object) d :
  d ∈ (for_in o).*2 ↔ d ∈ o.*2.
Proof. by rewrite for_in_perm. Qed.

Lemma plain_keys_entries (o : object) :
  plain_keys o → index_entries o = [] ∧ named_entries o = o.
Proof.
  induction 1 as [|[k v] o Hk _ [IH1 IH2]]; [done|].
  simpl in *. rewrite Hk. by rewrite IH1, IH2.
Qed.

Lemma for_in_plain (o : object) : plain_keys o → for_in o = o.
Proof.
  intros [H1 H2]%plain_keys_entries. unfold for_in. by rewrite H1, H2.
Qed.

Lemma for_in_singleton k v : for_in [(k, v)] = [(k, v)].
Proof. unfold for_in. simpl. by destruct (array_index k). Qed.

End JsFacts.

(** ** Sequencing *)

Lemma bind_returned {A B} (m : M A) (k : A → M B) t a :
  m = (t, Returned a) → bind m k = (t ++ (k a).1, (k a).2).
Proof. by intros ->. Qed.

Lemma bind_thrown {A B} (m : M A) (k : A → M B) t e :
  m = (t, Thrown e) → bind m k = (t, Thrown e).
Proof. by intros ->. Qed.

(** ** The artifact loader *)

Section Loader.

Variables zksolc zkvyper : string.
Variable hre : HardhatRuntimeEnvironment.

Local Abbreviation load := (loadArtifact zksolc zkvyper hre).
Local Abbreviation accepted := (recognised zksolc zkvyper).

Lemma loadArtifact_found name a :
  artifacts hre !! name = Some a →
  load name =
    ([ReadArtifact name],
     if negb (String.eqb (_format a) zksolc)
        && negb (String.eqb (_format a) zkvyper)
     then Thrown (ZkSync2JsPluginError (not_compiled_message name))
     else Returned a).
Proof.
  intros Hname. unfold loadArtifact, readArtifact, bind. simpl.
  rewrite Hname. simpl. by destruct (negb _ && negb _).
Qed.

Lemma loadArtifact_missing name :
  artifacts hre !! name = None →
  load name = ([ReadArtifact name], Thrown (ArtifactNotFound name)).
Proof.
  intros Hname. unfold loadArtifact, readArtifact, bind. simpl.
  by rewrite Hname.
Qed.

Lemma recognised_test a :
  negb (String.eqb (_format a) zksolc)
  && negb (String.eqb (_format a) zkvyper) = false ↔ accepted a.
Proof.
  unfold recognised.
  destruct (String.eqb_spec (_format a) zksolc),
    (String.eqb_spec (_format a) zkvyper); simpl; intuition congruence.
Qed.

Lemma loadArtifact_cases name :
  (∃ a, load name = ([ReadArtifact name], Returned a)
        ∧ artifacts hre !! name = Some a ∧ accepted a)
  ∨ (∃ e, load name = ([ReadArtifact name], Thrown e)
        ∧ (e = ArtifactNotFound name
           ∨ e = ZkSync2JsPluginError (not_compiled_message name))).
Proof.
  destruct (artifacts hre !! name) as [a|] eqn:Hname.
  - rewrite (loadArtifact_found _ _ Hname).
    destruct (negb _ && negb _) eqn:Hfmt.
    + right. eauto.
    + left. exists a. by rewrite <- recognised_test.
  - right. rewrite (loadArtifact_missing _ Hname). eauto.
Qed.

Lemma loadArtifact_returned name t a :
  load name = (t, Returned a) →
  artifacts hre !! name = Some a ∧ accepted a.
Proof.
  destruct (loadArtifact_cases name) as [(a' & -> & ? & ?)|(e & -> & _)];
    naive_solver.
Qed.

End Loader.

(** ** The traversal order *)

Section PreorderFacts.

Variables zksolc zkvyper : string.
Variable hre : HardhatRuntimeEnvironment.
Variable enum : Js.object → list (string * string).

Local Abbreviation load := (loadArtifact zksolc zkvyper hre).
Local Abbreviation traversal := (preorder zksolc zkvyper hre enum).
Local Abbreviation reached := (referenced zksolc zkvyper hre).

(** Nothing is loaded twice, and nothing already seen is loaded. *)
Lemma preorder_fresh todo seen loads out r :
  traversal todo seen loads out r →
  NoDup loads ∧ ∀ d, d ∈ loads → d ∉ seen.
Proof.
  induction 1 as [seen|d todo seen loads out r Hd _ IH
                 |d a todo seen loads out r Hd Ha _ [IHnd IH]
                 |d e todo seen Hd He].
  - split; [constructor|]. intros d Hd. by apply elem_of_nil in Hd.
  - done.
  - split.
    + constructor; [|done]. intros Hin. apply IH in Hin. set_solver.
    + intros d' [->|Hin]%elem_of_cons; [done|]. apply IH in Hin. set_solver.
  - split; [apply NoDup_singleton|].
    intros d' Hd'. apply list_elem_of_singleton in Hd'. by subst.
Qed.

(** The order is a function of the worklist and the seen set. *)
Lemma preorder_functional todo seen loads out r :
  traversal todo seen loads out r →
  ∀ loads' out' r',
    traversal todo seen loads' out' r' →
    loads = loads' ∧ out = out' ∧ r = r'.
Proof.
  induction 1 as [seen|d todo seen loads out r Hd _ IH
                 |d a todo seen loads out r Hd Ha _ IH
                 |d e todo seen Hd He];
    intros loads' out' r' H'; inversion H'; subst; try done.
  - by apply IH.
  - match goal with
    | H1 : loadArtifact _ _ _ d = (_, Returned ?a1) |- _ =>
        rewrite Ha in H1; injection H1 as <-
    end.
    match goal with
    | H1 : preorder _ _ _ _ _ _ _ _ _ |- _ =>
        apply IH in H1 as (-> & -> & ->)
    end.
    done.
  - congruence.
  - congruence.
  - match goal with
    | H1 : loadArtifact _ _ _ d = (_, Thrown _) |- _ =>
        rewrite He in H1; by injection H1 as <-
    end.
Qed.

(** When the traversal runs to its end, the output lists the bytecodes of
    the loaded artifacts, one for one. *)
Lemma preorder_bytecodes todo seen loads out r :
  traversal todo seen loads out r →
  r = None →
  Forall2 (λ d b, ∃ a, load d = ([ReadArtifact d], Returned a)
                       ∧ bytecode a = b) loads out.
Proof.
  induction 1; intros Hr; [constructor|auto|constructor; eauto|done].
Qed.

(** When it runs to its end, everything on the worklist and every
    dependency of a loaded artifact has been seen or loaded. *)
Lemma preorder_closed todo seen loads out r :
  traversal todo seen loads out r →
  r = None →
  (∀ d, d ∈ todo → d ∈ seen ∨ d ∈ loads)
  ∧ (∀ d a d', d ∈ loads →
       load d = ([ReadArtifact d], Returned a) →
       d' ∈ (enum (factoryDeps a)).*2 →
       d' ∈ seen ∨ d' ∈ loads).
Proof.
  induction 1 as [seen|d todo seen loads out r Hd _ IH
                 |d a todo seen loads out r Hd Ha _ IH
                 |d e todo seen Hd He]; intros Hr; try done.
  - split; intros d; [|intros a d']; by intros ?%elem_of_nil.
  - destruct (IH Hr) as [IH1 IH2]. split; [|done].
    intros d' [->|Hin]%elem_of_cons; auto.
  - destruct (IH Hr) as [IH1 IH2]. split.
    + intros d' [->|Hin]%elem_of_cons; [set_solver|].
      destruct (IH1 d') as [?|?]; set_solver.
    + intros d0 a0 d' [->|Hin]%elem_of_cons Ha0 Hd'.
      * rewrite Ha in Ha0. injection Ha0 as <-.
        destruct (IH1 d') as [?|?]; set_solver.
      * destruct (IH2 d0 a0 d' Hin Ha0 Hd') as [?|?]; set_solver.
Qed.

(** When it stops early, the failing load is the last one, it is the only
    one that failed, and it failed with the error reported. *)
Lemma preorder_aborted todo seen loads out r e :
  traversal todo seen loads out r →
  r = Some e →
  ∃ before d,
    loads = before ++ [d]
    ∧ load d = ([ReadArtifact d], Thrown e)
    ∧ Forall (λ d', ∃ a, load d' = ([ReadArtifact d'], Returned a)) before.
Proof.
  induction 1 as [seen|d todo seen loads out r Hd _ IH
                 |d a todo seen loads out r Hd Ha _ IH
                 |d e' todo seen Hd He]; intros Hr; try done.
  - auto.
  - destruct (IH Hr) as (before & d' & -> & Hd' & Hbefore).
    exists (d :: before), d'. split_and!; [done|done|].
    constructor; eauto.
  - injection Hr as ->. exists [], d. split_and!; [done|done|constructor].
Qed.

Hypothesis enum_values : ∀ o d, d ∈ (enum o).*2 ↔ d ∈ o.*2.

(** Only referenced identities are loaded. *)
Lemma preorder_referenced root todo seen loads out r :
  traversal todo seen loads out r →
  identity root ∈ seen →
  (∀ d, d ∈ todo → reached root d) →
  ∀ d, d ∈ loads → reached root d.
Proof.
  induction 1 as [seen|d todo seen loads out r Hd _ IH
                 |d a todo seen loads out r Hd Ha _ IH
                 |d e todo seen Hd He]; intros Hroot Htodo d0 Hd0.
  - by apply elem_of_nil in Hd0.
  - apply IH; [done| |done]. intros d' Hd'. apply Htodo. by right.
  - apply elem_of_cons in Hd0 as [->|Hd0]; [apply Htodo; by left|].
    apply IH; [set_solver| |done].
    intros d' [Hd'|Hd']%elem_of_app; [|apply Htodo; by right].
    apply referenced_dep with d a; [apply Htodo; by left| |done|].
    + intros ->. done.
    + by apply enum_values.
  - apply list_elem_of_singleton in Hd0 as ->. apply Htodo. by left.
Qed.

(** Every referenced identity other than the root's is loaded when the
    traversal from the root runs to its end. *)
Lemma preorder_complete root loads out :
  traversal (enum (factoryDeps root)).*2 {[identity root]} loads out None →
  ∀ d, reached root d → d = identity root ∨ d ∈ loads.
Proof.
  intros Hpre. destruct (preorder_closed _ _ _ _ _ Hpre eq_refl) as [H1 H2].
  induction 1 as [d Hd|d a d' _ IH Hne Ha Hd'].
  - apply enum_values, H1 in Hd. set_solver.
  - destruct IH as [?|Hin]; [done|].
    apply enum_values in Hd'.
    destruct (H2 d a d' Hin Ha Hd'); set_solver.
Qed.

End PreorderFacts.

(** ** The resolver realises the traversal order *)

Section Resolver.

Variables zksolc zkvyper : string.
Variable hre : HardhatRuntimeEnvironment.

Local Abbreviation load := (loadArtifact zksolc zkvyper hre).
Local Abbreviation traversal := (preorder zksolc zkvyper hre Js.for_in).
Local Abbreviation recursive :=
  (extractFactoryDepsRecursive zksolc zkvyper hre).
Local Abbreviation for_loop := (for_dependencyHash zksolc zkvyper hre).

(** Number of stored names not yet in the visited set: the recursion
    depth left. *)
Local Abbreviation unseen visited :=
  (size (dom (artifacts hre) ∖ (visited : gset string))).

Lemma unseen_mono (visited visited' : gset string) :
  visited ⊆ visited' → (unseen visited' ≤ unseen visited)%nat.
Proof. intros Hsub. apply subseteq_size. set_solver. Qed.

Lemma unseen_add (visited : gset string) d a :
  artifacts hre !! d = Some a → d ∉ visited →
  (unseen (visited ∪ {[d]}) < unseen visited)%nat.
Proof.
  intros Hd Hnew. apply subset_size.
  assert (d ∈ dom (artifacts hre)) by (apply elem_of_dom; eauto).
  set_solver.
Qed.

Lemma unseen_bound (visited : gset string) :
  (unseen visited ≤ size (artifacts hre))%nat.
Proof.
  rewrite <- size_dom. apply subseteq_size. set_solver.
Qed.

(** [ids], walked from [visited], loads [loads], collects [out] and ends
    with [r]; stated so that walks compose. *)
Local Abbreviation walks ids visited loads out r :=
  (∀ todo,
     match r with
     | None =>
         ∀ visited' loads' out' r',
           visited' = visited ∪ list_to_set loads →
           traversal todo visited' loads' out' r' →
           traversal (ids ++ todo) visited (loads ++ loads') (out ++ out') r'
     | Some e => traversal (ids ++ todo) visited loads out (Some e)
     end).

Lemma for_dependencyHash_walks fuel :
  (∀ a visited, (unseen visited < fuel)%nat →
     ∃ loads out r,
       recursive fuel a visited
       = (ReadArtifact <$> loads,
          handed_back r (out, visited ∪ list_to_set loads))
       ∧ walks (Js.for_in (factoryDeps a)).*2 visited loads out r) →
  ∀ entries acc visited, (unseen visited < S fuel)%nat →
    ∃ loads out r,
      for_loop (recursive fuel) entries acc visited
      = (ReadArtifact <$> loads,
         handed_back r (acc ++ out, visited ∪ list_to_set loads))
      ∧ walks entries.*2 visited loads out r.
Proof.
  intros IHfuel. induction entries as [|[h d] entries IH];
    intros acc visited Hfuel.
  { exists [], [], None. simpl. split.
    - unfold ret. do 3 f_equal; [by rewrite app_nil_r|set_solver].
    - intros todo visited' loads' out' r' -> Hrest.
      by replace (visited ∪ ∅) with visited in Hrest by set_solver. }
  simpl. case_bool_decide as Hseen.
  { destruct (IH acc visited Hfuel) as (loads & out & r & -> & Hwalk).
    exists loads, out, r. split; [done|]. intros todo.
    specialize (Hwalk todo). destruct r; simpl.
    - by apply preorder_skip.
    - intros. apply preorder_skip; [done|]. eapply Hwalk; eauto. }
  destruct (loadArtifact_cases zksolc zkvyper hre d)
    as [(a & Hload & Hstore & _)|(e & Hload & _)]; last first.
  { exists [d], [], (Some e). split.
    - by rewrite (bind_thrown _ _ _ _ Hload).
    - intros todo. simpl. by apply preorder_abort. }
  rewrite (bind_returned _ _ _ _ Hload).
  destruct (IHfuel a (visited ∪ {[d]}))
    as (loads1 & out1 & r1 & Hrec & Hwalk1).
  { pose proof (unseen_add visited d a Hstore Hseen). lia. }
  destruct r1 as [e|]; simpl in Hrec.
  { exists (d :: loads1), (bytecode a :: out1), (Some e). split.
    - rewrite (bind_thrown _ _ _ _ Hrec). done.
    - intros todo. simpl. eapply preorder_visit; [done|done|].
      rewrite <- ?app_assoc. apply Hwalk1. }
  rewrite (bind_returned _ _ _ _ Hrec).
  destruct (IH ((acc ++ [bytecode a]) ++ out1)
              (visited ∪ {[d]} ∪ list_to_set loads1))
    as (loads2 & out2 & r2 & Hloop & Hwalk2).
  { assert (visited ⊆ visited ∪ {[d]} ∪ list_to_set loads1) as Hsub
      by set_solver.
    apply unseen_mono in Hsub. lia. }
  exists (d :: loads1 ++ loads2), (bytecode a :: out1 ++ out2), r2. split.
  - rewrite Hloop. simpl. rewrite fmap_app. do 2 f_equal.
    f_equal; [by rewrite <- !app_assoc|].
    rewrite list_to_set_app_L. set_solver.
  - intros todo. specialize (Hwalk1 (entries.*2 ++ todo)).
    specialize (Hwalk2 todo). simpl in Hwalk1. destruct r2 as [e|]; simpl.
    + eapply preorder_visit; [done|done|].
      rewrite <- ?app_assoc. by eapply Hwalk1.
    + intros visited' loads' out' r' -> Hrest.
      rewrite <- ?app_assoc. eapply preorder_visit; [done|done|].
      rewrite <- ?app_assoc. eapply Hwalk1; [done|].
      eapply Hwalk2; [|done].
      simpl. rewrite list_to_set_app_L. set_solver.
Qed.

Lemma extractFactoryDepsRecursive_walks fuel :
  ∀ a visited, (unseen visited < fuel)%nat →
    ∃ loads out r,
      recursive fuel a visited
      = (ReadArtifact <$> loads,
         handed_back r (out, visited ∪ list_to_set loads))
      ∧ walks (Js.for_in (factoryDeps a)).*2 visited loads out r.
Proof.
  induction fuel as [|fuel IH]; intros a visited Hfuel; [lia|].
  simpl.
  destruct (for_dependencyHash_walks fuel IH
              (Js.for_in (factoryDeps a)) [] visited Hfuel)
    as (loads & out & r & Hloop & Hwalk).
  by exists loads, out, r.
Qed.

(** With fuel above the size of the store, a call of [extractFactoryDeps]
    has run the traversal from the root's dependencies, the root's
    identity being the only one seen: its log is the loads of the
    traversal, and it returns the bytecodes collected or throws the error
    the traversal stopped at. *)
Lemma extractFactoryDeps_traversal fuel root :
  (size (artifacts hre) < fuel)%nat →
  ∃ loads out r,
    extractFactoryDeps zksolc zkvyper hre fuel root
    = (ReadArtifact <$> loads, handed_back r out)
    ∧ traversal (Js.for_in (factoryDeps root)).*2 {[identity root]}
        loads out r.
Proof.
  intros Hfuel. unfold extractFactoryDeps.
  rewrite (left_id_L ∅ (∪)).
  destruct (extractFactoryDepsRecursive_walks fuel root {[identity root]})
    as (loads & out & r & Hrec & Hwalk).
  { pose proof (unseen_bound {[identity root]}). lia. }
  exists loads, out, r. specialize (Hwalk []).
  rewrite app_nil_r in Hwalk. destruct r as [e|]; simpl in *.
  - by rewrite (bind_thrown _ _ _ _ Hrec).
  - rewrite (bind_returned _ _ _ _ Hrec). simpl. rewrite app_nil_r.
    split; [done|].
    specialize (Hwalk _ [] [] None eq_refl (preorder_end _ _ _ _ _)).
    by rewrite !app_nil_r in Hwalk.
Qed.

(** Any two fuels above the size of the store give the same call. *)
Lemma extractFactoryDeps_fuel fuel fuel' root :
  (size (artifacts hre) < fuel)%nat →
  (size (artifacts hre) < fuel')%nat →
  extractFactoryDeps zksolc zkvyper hre fuel root
  = extractFactoryDeps zksolc zkvyper hre fuel' root.
Proof.
  intros Hfuel Hfuel'.
  destruct (extractFactoryDeps_traversal fuel root Hfuel)
    as (loads & out & r & -> & Hpre).
  destruct (extractFactoryDeps_traversal fuel' root Hfuel')
    as (loads' & out' & r' & -> & Hpre').
  by destruct (preorder_functional _ _ _ _ _ _ _ _ _ Hpre _ _ _ Hpre')
    as (-> & -> & ->).
Qed.

End Resolver.

(** ** The resolver does not look at bytecodes *)

Section Bytecodes.

Variables zksolc zkvyper : string.
Variable hre : HardhatRuntimeEnvironment.
Variable f : string → string.

Local Abbreviation hre' := (map_bytecode_hre f hre).
Local Abbreviation on_result :=
  (M_map (λ p : list string * gset string, (f <$> p.1, p.2))).

Lemma loadArtifact_map_bytecode name :
  loadArtifact zksolc zkvyper hre' name
  = M_map (map_bytecode f) (loadArtifact zksolc zkvyper hre name).
Proof.
  unfold loadArtifact, readArtifact, bind, M_map. simpl.
  rewrite lookup_fmap. destruct (artifacts hre !! name) as [a|]; simpl;
    [|done].
  by destruct (negb _ && negb _).
Qed.

Lemma for_dependencyHash_map_bytecode recurse recurse' :
  (∀ a visited,
     recurse' (map_bytecode f a) visited = on_result (recurse a visited)) →
  ∀ entries acc visited,
    for_dependencyHash zksolc zkvyper hre' recurse' entries
      (f <$> acc) visited
    = on_result
        (for_dependencyHash zksolc zkvyper hre recurse entries acc visited).
Proof.
  intros Hrec. induction entries as [|[h d] entries IH];
    intros acc visited; [done|].
  simpl. case_bool_decide; [apply IH|].
  rewrite loadArtifact_map_bytecode.
  destruct (loadArtifact zksolc zkvyper hre d) as [t [a|e|]]; [|done|done].
  unfold bind at 1 3. simpl. rewrite Hrec.
  destruct (recurse a (visited ∪ {[d]})) as [t' [[deps visited']|e|]];
    [|done|done].
  unfold bind, M_map. simpl.
  specialize (IH ((acc ++ [bytecode a]) ++ deps) visited').
  rewrite !fmap_app in IH. simpl in IH. rewrite IH.
  unfold M_map. simpl.
  by destruct (for_dependencyHash zksolc zkvyper hre recurse entries
                 ((acc ++ [bytecode a]) ++ deps) visited') as [t'' [[]| |]].
Qed.

Lemma extractFactoryDepsRecursive_map_bytecode fuel :
  ∀ a visited,
    extractFactoryDepsRecursive zksolc zkvyper hre' fuel
      (map_bytecode f a) visited
    = on_result
        (extractFactoryDepsRecursive zksolc zkvyper hre fuel a visited).
Proof.
  induction fuel as [|fuel IH]; intros a visited; [done|].
  simpl. by apply (for_dependencyHash_map_bytecode _ _ IH _ []).
Qed.

Lemma extractFactoryDeps_map_bytecode fuel root :
  extractFactoryDeps zksolc zkvyper hre' fuel (map_bytecode f root)
  = M_map (fmap f) (extractFactoryDeps zksolc zkvyper hre fuel root).
Proof.
  unfold extractFactoryDeps.
  rewrite extractFactoryDepsRecursive_map_bytecode.
  change (identity (map_bytecode f root)) with (identity root).
  destruct (extractFactoryDepsRecursive zksolc zkvyper hre fuel root
              (∅ ∪ {[identity root]})) as [t [[deps visited]|e|]]; done.
Qed.

End Bytecodes.

(** ** Enumeration orders that agree *)

Section Enumerations.

Variables zksolc zkvyper : string.
Variable hre : HardhatRuntimeEnvironment.
Variables enum enum' : Js.object → list (string * string).

Hypothesis enum_agree :
  ∀ d a, artifacts hre !! d = Some a →
         enum (factoryDeps a) = enum' (factoryDeps a).

Lemma preorder_enum todo seen loads out r :
  preorder zksolc zkvyper hre enum todo seen loads out r →
  preorder zksolc zkvyper hre enum' todo seen loads out r.
Proof.
  induction 1 as [seen|d todo seen loads out r Hd _ IH
                 |d a todo seen loads out r Hd Ha _ IH
                 |d e todo seen Hd He].
  - constructor.
  - by constructor.
  - eapply preorder_visit; [done|done|].
    apply loadArtifact_returned in Ha as [Ha _].
    by rewrite <- (enum_agree d a Ha).
  - by constructor.
Qed.

End Enumerations.

(** ** Order of the result *)

Ltac visit a :=
  eapply (preorder_visit _ _ _ _ _ a);
  [set_solver | vm_compute; reflexivity | unfold insertion_order; simpl].
Ltac skip :=
  eapply preorder_skip; [set_solver|].

(** C1 (as amended). On the graph A → {B, C}, B → {D}, C → {D}, D → {} the
    call returns exactly [B.bytecode, D.bytecode, C.bytecode]. For every
    finite store and every root, a call with enough fuel returns the
    bytecodes in pre-order, depth-first, first-discovery order, each
    [factoryDeps] mapping being walked in [for ... in] order (array-index
    keys first, ascending, then the other keys in insertion order); when no
    hash key of the root or of a stored artifact is an array index this is
    insertion order; and every other call with enough fuel gives the very
    same log and result. *)
Theorem extractFactoryDeps_enumeration_order :
  extractFactoryDeps Scenario.zksolc Scenario.zkvyper Scenario.diamond 5
    Scenario.A
  = ([ReadArtifact "src:B"; ReadArtifact "src:D"; ReadArtifact "src:C"],
     Returned [bytecode Scenario.B; bytecode Scenario.D; bytecode Scenario.C])
  ∧ ∀ zksolc zkvyper hre root fuel,
      (size (artifacts hre) < fuel)%nat →
      follows_order Js.for_in zksolc zkvyper hre fuel root
      ∧ (Js.plain_keys (factoryDeps root) →
         map_Forall (λ _ a, Js.plain_keys (factoryDeps a)) (artifacts hre) →
         follows_order insertion_order zksolc zkvyper hre fuel root)
      ∧ (∀ fuel',
           (size (artifacts hre) < fuel')%nat →
           extractFactoryDeps zksolc zkvyper hre fuel' root
           = extractFactoryDeps zksolc zkvyper hre fuel root).
Proof.
  split; [by vm_compute|].
  intros zksolc zkvyper hre root fuel Hfuel.
  pose proof (extractFactoryDeps_traversal zksolc zkvyper hre fuel root Hfuel)
    as Hrun.
  split_and!.
  - exact Hrun.
  - intros Hroot Hstore. destruct Hrun as (loads & out & r & Hrun & Hpre).
    exists loads, out, r. split; [done|].
    unfold insertion_order. rewrite (JsFacts.for_in_plain _ Hroot) in Hpre.
    eapply preorder_enum; [|exact Hpre].
    intros d a Ha. simpl. apply JsFacts.for_in_plain. by eapply Hstore.
  - intros fuel' Hfuel'. by apply extractFactoryDeps_fuel.
Qed.

Lemma extractFactoryDeps_enumeration_order_witness :
  (size (artifacts Scenario.indexed) < 5)%nat
  ∧ follows_order Js.for_in Scenario.zksolc Scenario.zkvyper
      Scenario.indexed 5 Scenario.A_indexed.
Proof.
  assert (size (artifacts Scenario.indexed) < 5)%nat as Hfuel
    by (vm_compute; lia).
  split; [exact Hfuel|].
  exact (proj1 (proj2 extractFactoryDeps_enumeration_order
                  Scenario.zksolc Scenario.zkvyper Scenario.indexed
                  Scenario.A_indexed 5 Hfuel)).
Defined.

(** C1 as stated fails: with B entered under the key "2" before C under the
    key "1", the loop meets "1" first, so the result is
    [C.bytecode, D.bytecode, B.bytecode], not the insertion-order traversal
    [B.bytecode, D.bytecode, C.bytecode]. *)
Lemma extractFactoryDeps_not_insertion_order :
  ¬ follows_order insertion_order Scenario.zksolc Scenario.zkvyper
      Scenario.indexed 5 Scenario.A_indexed.
Proof.
  intros (loads & out & r & Hrun & Hpre).
  assert (preorder Scenario.zksolc Scenario.zkvyper Scenario.indexed
            insertion_order ["src:B"; "src:C"] {["src:A"]}
            ["src:B"; "src:D"; "src:C"] ["0xbb"; "0xdd"; "0xcc"] None)
    as Hspec.
  { visit Scenario.B. visit Scenario.D. visit Scenario.C. skip.
    apply preorder_end. }
  destruct (preorder_functional _ _ _ _ _ _ _ _ _ Hspec _ _ _ Hpre)
    as (<- & <- & <-).
  vm_compute in Hrun. discriminate Hrun.
Qed.

(** ** What a call has done when it comes back *)

Section Summary.

Variables zksolc zkvyper : string.
Variable hre : HardhatRuntimeEnvironment.

Local Abbreviation load := (loadArtifact zksolc zkvyper hre).
Local Abbreviation reached := (referenced zksolc zkvyper hre).

(** The load behind an emitted bytecode. *)
Local Abbreviation fetched :=
  (λ d b, ∃ a, load d = ([ReadArtifact d], Returned a) ∧ bytecode a = b).

(** The entry of the store behind an emitted bytecode. *)
Local Abbreviation emitted :=
  (λ d b, ∃ a, artifacts hre !! d = Some a ∧ bytecode a = b).

Lemma extractFactoryDeps_summary fuel root :
  (size (artifacts hre) < fuel)%nat →
  ∃ loads out r,
    extractFactoryDeps zksolc zkvyper hre fuel root
    = (ReadArtifact <$> loads, handed_back r out)
    ∧ NoDup loads
    ∧ (identity root ∉ loads)
    ∧ (∀ d, d ∈ loads → reached root d)
    ∧ match r with
      | None =>
          Forall2 fetched loads out
          ∧ ∀ d, reached root d → d = identity root ∨ d ∈ loads
      | Some e =>
          ∃ before d,
            loads = before ++ [d]
            ∧ load d = ([ReadArtifact d], Thrown e)
            ∧ Forall (λ d', ∃ a, load d' = ([ReadArtifact d'], Returned a))
                before
      end.
Proof.
  intros Hfuel.
  destruct (extractFactoryDeps_traversal zksolc zkvyper hre fuel root Hfuel)
    as (loads & out & r & Hrun & Hpre).
  exists loads, out, r.
  destruct (preorder_fresh _ _ _ _ _ _ _ _ _ Hpre) as [Hnodup Hfresh].
  split_and!; [done|done| | |].
  - intros Hin. apply Hfresh in Hin. set_solver.
  - eapply preorder_referenced;
      [apply JsFacts.elem_of_for_in_values|exact Hpre|set_solver|].
    intros d Hd. apply referenced_root.
    by apply JsFacts.elem_of_for_in_values.
  - destruct r as [e|].
    + by eapply preorder_aborted.
    + split.
      * by eapply preorder_bytecodes.
      * eapply preorder_complete;
          [apply JsFacts.elem_of_for_in_values|exact Hpre].
Qed.

Lemma fetched_emitted loads out :
  Forall2 fetched loads out → Forall2 emitted loads out.
Proof.
  intros H. eapply Forall2_impl; [exact H|].
  intros d b (a & Ha & Hb). exists a. split; [|done].
  by apply loadArtifact_returned in Ha as [Ha _].
Qed.

Lemma fetched_stored loads out d a :
  Forall2 fetched loads out → d ∈ loads →
  artifacts hre !! d = Some a →
  load d = ([ReadArtifact d], Returned a).
Proof.
  induction 1 as [|d' b loads out (a' & Ha' & _) _ IH];
    [by intros ?%elem_of_nil|].
  intros [->|Hin]%elem_of_cons Ha; [|by apply IH].
  pose proof Ha' as [Hstore _]%loadArtifact_returned. congruence.
Qed.

Lemma fetched_loaded loads out d :
  Forall2 fetched loads out → d ∈ loads →
  ∃ a, load d = ([ReadArtifact d], Returned a).
Proof.
  induction 1 as [|d' b loads out (a' & Ha' & _) _ IH];
    [by intros ?%elem_of_nil|].
  intros [->|Hin]%elem_of_cons; eauto.
Qed.

Lemma fetched_emits loads out d a :
  Forall2 fetched loads out → d ∈ loads →
  artifacts hre !! d = Some a →
  bytecode a ∈ out.
Proof.
  induction 1 as [|d' b loads out (a' & Ha' & Hb) _ IH];
    [by intros ?%elem_of_nil|].
  intros [->|Hin]%elem_of_cons Ha.
  - pose proof Ha' as [Hstore _]%loadArtifact_returned.
    apply elem_of_cons. left. congruence.
  - apply elem_of_cons. right. by apply IH.
Qed.

Lemma fetched_length loads out :
  Forall2 fetched loads out → length out = length loads.
Proof. intros H. symmetry. by eapply Forall2_length. Qed.

(** Distinct identities with distinct bytecodes give distinct outputs. *)
Lemma emitted_NoDup loads out :
  (∀ d1 d2 a1 a2,
     artifacts hre !! d1 = Some a1 → artifacts hre !! d2 = Some a2 →
     bytecode a1 = bytecode a2 → d1 = d2) →
  Forall2 emitted loads out →
  NoDup loads → NoDup out.
Proof.
  intros Hinj. induction 1 as [|d b loads out (a & Ha & Hb) Hrest IH];
    intros Hnodup; [constructor|].
  apply NoDup_cons in Hnodup as [Hd Hnodup].
  constructor; [|by apply IH].
  intros Hb'. apply Hd.
  clear IH Hnodup Hd.
  induction Hrest as [|d' b' loads out (a' & Ha' & Hb'') _ IH].
  - by apply elem_of_nil in Hb'.
  - apply elem_of_cons in Hb' as [->|Hb'].
    + apply elem_of_cons. left. eapply Hinj; [exact Ha|exact Ha'|congruence].
    + apply elem_of_cons. right. by apply IH.
Qed.

(** An output that shares no bytecode with the loads does not hold it. *)
Lemma emitted_absent loads out b :
  (∀ d a, d ∈ loads → artifacts hre !! d = Some a → bytecode a ≠ b) →
  Forall2 emitted loads out →
  b ∉ out.
Proof.
  intros Hne. induction 1 as [|d b' loads out (a & Ha & Hb) _ IH];
    [by intros ?%elem_of_nil|].
  intros [->|Hin]%elem_of_cons.
  - eapply Hne; [by left|exact Ha|done].
  - apply IH; [|done]. intros d' a' Hd'. apply Hne. by right.
Qed.

End Summary.

(** ** Duplicates *)

(** C2. In the diamond A → B, A → C, B → D, C → D the bytecode of D occurs
    exactly once in the result. For every finite store and every root, a call
    with enough fuel loads no identity twice, and when it returns, its
    result lists the bytecodes of the loaded identities one for one: every
    identity contributes at most one element. When distinct stored
    identities have distinct bytecodes, no bytecode occurs twice. *)
Theorem extractFactoryDeps_each_identity_once :
  (∃ trace out,
     extractFactoryDeps Scenario.zksolc Scenario.zkvyper Scenario.diamond 5
       Scenario.A = (trace, Returned out)
     ∧ count_occ string_dec out (bytecode Scenario.D) = 1)
  ∧ ∀ zksolc zkvyper hre root fuel,
      (size (artifacts hre) < fuel)%nat →
      ∃ loads out r,
        extractFactoryDeps zksolc zkvyper hre fuel root
        = (ReadArtifact <$> loads, handed_back r out)
        ∧ NoDup loads
        ∧ (r = None →
           Forall2 (λ d b, ∃ a, artifacts hre !! d = Some a ∧ bytecode a = b)
             loads out
           ∧ ((∀ d1 d2 a1 a2,
                 artifacts hre !! d1 = Some a1 →
                 artifacts hre !! d2 = Some a2 →
                 bytecode a1 = bytecode a2 → d1 = d2) →
              NoDup out)).
Proof.
  split.
  { eexists _, _. split; [by vm_compute|]. by vm_compute. }
  intros zksolc zkvyper hre root fuel Hfuel.
  destruct (extractFactoryDeps_summary zksolc zkvyper hre fuel root Hfuel)
    as (loads & out & r & Hrun & Hnodup & _ & _ & Hr).
  exists loads, out, r. split_and!; [done|done|].
  intros ->. destruct Hr as [Hout%fetched_emitted _]. split; [done|].
  intros Hinj. by eapply emitted_NoDup.
Qed.

Lemma extractFactoryDeps_each_identity_once_witness :
  (size (artifacts Scenario.diamond) < 5)%nat
  ∧ ∃ loads out r,
      extractFactoryDeps Scenario.zksolc Scenario.zkvyper Scenario.diamond 5
        Scenario.A = (ReadArtifact <$> loads, handed_back r out)
      ∧ NoDup loads.
Proof.
  assert (size (artifacts Scenario.diamond) < 5)%nat as Hfuel
    by (vm_compute; lia).
  split; [exact Hfuel|].
  destruct (proj2 extractFactoryDeps_each_identity_once
              Scenario.zksolc Scenario.zkvyper Scenario.diamond
              Scenario.A 5 Hfuel) as (loads & out & r & Hrun & Hnodup & _).
  by exists loads, out, r.
Defined.

(** ** Keys and identities *)

(** C3. The loop never consults the hash key: two entry lists with the same
    identities in the same order run alike, whatever their keys. For every
    finite store and every root, when a call with enough fuel returns, no
    identity was loaded twice, each load gave one element of the result, and
    the identity of every entry of the root's mapping and of every loaded
    artifact's mapping was loaded, unless it is the root's: so an identity
    entered under two keys is loaded and emitted exactly once, and two
    entries under one key with different identities are both processed, as
    in the sample where A has B under "h1" and "h2", and B has D under
    "h1". *)
Theorem dedup_keyed_on_identity :
  extractFactoryDeps Scenario.zksolc Scenario.zkvyper Scenario.rekeyed 5
    Scenario.A_twice
  = ([ReadArtifact "src:B"; ReadArtifact "src:D"],
     Returned [bytecode Scenario.B_same_key; bytecode Scenario.D])
  ∧ (∀ zksolc zkvyper hre recurse entries entries' acc visited,
       entries.*2 = entries'.*2 →
       for_dependencyHash zksolc zkvyper hre recurse entries acc visited
       = for_dependencyHash zksolc zkvyper hre recurse entries' acc visited)
  ∧ ∀ zksolc zkvyper hre root fuel,
      (size (artifacts hre) < fuel)%nat →
      ∀ trace out,
        extractFactoryDeps zksolc zkvyper hre fuel root
        = (trace, Returned out) →
        ∃ loads,
          trace = ReadArtifact <$> loads
          ∧ NoDup loads
          ∧ length out = length loads
          ∧ (∀ h d, (h, d) ∈ factoryDeps root →
                    d ≠ identity root → d ∈ loads)
          ∧ (∀ x a h d, x ∈ loads → artifacts hre !! x = Some a →
                        (h, d) ∈ factoryDeps a →
                        d ≠ identity root → d ∈ loads).
Proof.
  split_and!.
  - by vm_compute.
  - intros zksolc zkvyper hre recurse entries.
    induction entries as [|[h d] entries IH];
      intros [|[h' d'] entries'] acc visited Heq; try done.
    simpl in Heq. injection Heq as <- Heq. simpl.
    case_bool_decide; [by apply IH|].
    destruct (loadArtifact zksolc zkvyper hre d) as [t [a|e|]]; [|done|done].
    unfold bind at 1 3. simpl.
    destruct (recurse a (visited ∪ {[d]})) as [t' [[deps visited']|e|]];
      [|done|done].
    unfold bind. simpl. by rewrite (IH entries').
  - intros zksolc zkvyper hre root fuel Hfuel trace out Hrun.
    destruct (extractFactoryDeps_summary zksolc zkvyper hre fuel root Hfuel)
      as (loads & out' & r & Hrun' & Hnodup & Hroot & Hsound & Hr).
    rewrite Hrun in Hrun'. destruct r as [e|]; [done|].
    injection Hrun' as -> <-. destruct Hr as [Hout Hall].
    exists loads. split_and!; [done|done|by eapply fetched_length| |].
    + intros h d Hin Hne.
      destruct (Hall d); [|done|done].
      apply referenced_root. apply list_elem_of_fmap. by exists (h, d).
    + intros x a h d Hx Ha Hin Hne.
      destruct (Hall d); [|done|done].
      apply referenced_dep with x a.
      * by apply Hsound.
      * by intros ->.
      * by eapply fetched_stored.
      * apply list_elem_of_fmap. by exists (h, d).
Qed.

Lemma dedup_keyed_on_identity_witness :
  (size (artifacts Scenario.rekeyed) < 5)%nat
  ∧ ∃ loads,
      [ReadArtifact "src:B"; ReadArtifact "src:D"] = ReadArtifact <$> loads
      ∧ NoDup loads
      ∧ length ["0xbb"; "0xdd"] = length loads.
Proof.
  assert (size (artifacts Scenario.rekeyed) < 5)%nat as Hfuel
    by (vm_compute; lia).
  split; [exact Hfuel|].
  destruct (proj2 (proj2 dedup_keyed_on_identity)
              Scenario.zksolc Scenario.zkvyper Scenario.rekeyed
              Scenario.A_twice 5 Hfuel
              [ReadArtifact "src:B"; ReadArtifact "src:D"] ["0xbb"; "0xdd"])
    as (loads & Htrace & Hnodup & Hlen & _).
  { by vm_compute. }
  by exists loads.
Defined.

(** ** Termination *)

(** C4. The loop makes its recursive call only with the identity of the
    artifact it recurses on already in the visited set. In every mutual
    cycle A → B → A, resolving A loads B once and returns B's bytecode
    alone. For every finite store and every root, a call with fuel above
    the size of the store does not run out of fuel, every call with more
    fuel gives the same log and result, and when it returns, every
    referenced identity other than the root's was loaded exactly once and
    gave one element of the result. *)
Theorem extractFactoryDeps_terminates :
  (∀ zksolc zkvyper hre recurse recurse' entries acc visited,
     (∀ d a visited',
        d ∈ visited' →
        loadArtifact zksolc zkvyper hre d = ([ReadArtifact d], Returned a) →
        recurse a visited' = recurse' a visited') →
     for_dependencyHash zksolc zkvyper hre recurse entries acc visited
     = for_dependencyHash zksolc zkvyper hre recurse' entries acc visited)
  ∧ (∀ zksolc zkvyper hre a b idB h h' fuel,
       factoryDeps a = [(h, idB)] →
       artifacts hre !! idB = Some b →
       recognised zksolc zkvyper b →
       factoryDeps b = [(h', identity a)] →
       idB ≠ identity a →
       extractFactoryDeps zksolc zkvyper hre (S (S fuel)) a
       = ([ReadArtifact idB], Returned [bytecode b]))
  ∧ ∀ zksolc zkvyper hre root fuel,
      (size (artifacts hre) < fuel)%nat →
      (extractFactoryDeps zksolc zkvyper hre fuel root).2 ≠ OutOfFuel
      ∧ (∀ fuel',
           (fuel ≤ fuel')%nat →
           extractFactoryDeps zksolc zkvyper hre fuel' root
           = extractFactoryDeps zksolc zkvyper hre fuel root)
      ∧ (∀ trace out,
           extractFactoryDeps zksolc zkvyper hre fuel root
           = (trace, Returned out) →
           ∃ loads,
             trace = ReadArtifact <$> loads
             ∧ NoDup loads
             ∧ length out = length loads
             ∧ ∀ d, referenced zksolc zkvyper hre root d →
                    d ≠ identity root → d ∈ loads).
Proof.
  split_and!.
  - intros zksolc zkvyper hre recurse recurse' entries acc visited Hagree.
    revert acc visited. induction entries as [|[h d] entries IH];
      intros acc visited; [done|].
    simpl. case_bool_decide; [by apply IH|].
    destruct (loadArtifact_cases zksolc zkvyper hre d)
      as [(a & Hload & _)|(e & Hload & _)]; rewrite Hload; [|done].
    unfold bind at 1 3. simpl.
    rewrite (Hagree d a (visited ∪ {[d]})) by (done || set_solver).
    destruct (recurse' a (visited ∪ {[d]})) as [t' [[deps visited']|e|]];
      [|done|done].
    unfold bind. simpl. by rewrite IH.
  - intros zksolc zkvyper hre a b idB h h' fuel Ha Hb Hfmt Hba Hne.
    assert (∀ visited,
              identity a ∈ visited →
              for_dependencyHash zksolc zkvyper hre
                (extractFactoryDepsRecursive zksolc zkvyper hre fuel)
                (Js.for_in (factoryDeps b)) [] visited
              = ([], Returned ([], visited))) as Hinner.
    { intros visited Hin.
      rewrite Hba, JsFacts.for_in_singleton. cbn [for_dependencyHash].
      by rewrite bool_decide_eq_true_2. }
    unfold extractFactoryDeps. cbn [extractFactoryDepsRecursive].
    rewrite Ha, JsFacts.for_in_singleton. cbn [for_dependencyHash].
    rewrite bool_decide_eq_false_2 by set_solver.
    rewrite (loadArtifact_found _ _ _ _ _ Hb).
    rewrite (proj2 (recognised_test _ _ _) Hfmt).
    unfold bind at 2. cbn [fst snd].
    rewrite Hinner by set_solver.
    done.
  - intros zksolc zkvyper hre root fuel Hfuel.
    destruct (extractFactoryDeps_summary zksolc zkvyper hre fuel root Hfuel)
      as (loads & out & r & Hrun & Hnodup & Hroot & Hsound & Hr).
    split_and!.
    + rewrite Hrun. by destruct r.
    + intros fuel' Hfuel'. apply extractFactoryDeps_fuel; [lia|done].
    + intros trace out' Hrun'. rewrite Hrun' in Hrun.
      destruct r as [e|]; [done|]. injection Hrun as -> ->.
      destruct Hr as [Hout Hall]. exists loads.
      split_and!; [done|done|by eapply fetched_length|].
      intros d Hd Hne. by destruct (Hall d Hd).
Qed.

Lemma extractFactoryDeps_terminates_witness :
  (size (artifacts Scenario.cycle) < 3)%nat
  ∧ (extractFactoryDeps Scenario.zksolc Scenario.zkvyper Scenario.cycle 3
       Scenario.A_cyclic).2 ≠ OutOfFuel.
Proof.
  assert (size (artifacts Scenario.cycle) < 3)%nat as Hfuel
    by (vm_compute; lia).
  split; [exact Hfuel|].
  exact (proj1 (proj2 (proj2 extractFactoryDeps_terminates)
                  Scenario.zksolc Scenario.zkvyper Scenario.cycle
                  Scenario.A_cyclic 3 Hfuel)).
Defined.

(** ** The root *)

(** C5. For every root: a root whose only dependency is itself gives the
    empty result without a load; and a call with enough fuel never loads the
    root's identity, every element of its result is the bytecode of a loaded
    artifact whose identity is not the root's, and the root's bytecode is
    absent from the result whenever no other stored artifact has that very
    bytecode. *)
Theorem extractFactoryDeps_excludes_root :
  ∀ zksolc zkvyper hre root,
    (∀ h fuel,
       factoryDeps root = [(h, identity root)] →
       extractFactoryDeps zksolc zkvyper hre (S fuel) root
       = ([], Returned []))
    ∧ ∀ fuel,
        (size (artifacts hre) < fuel)%nat →
        ∃ loads out r,
          extractFactoryDeps zksolc zkvyper hre fuel root
          = (ReadArtifact <$> loads, handed_back r out)
          ∧ (identity root ∉ loads)
          ∧ (r = None →
             Forall2 (λ d b, d ≠ identity root
                             ∧ ∃ a, artifacts hre !! d = Some a
                                    ∧ bytecode a = b) loads out
             ∧ ((∀ d a, artifacts hre !! d = Some a →
                        bytecode a = bytecode root → d = identity root) →
                bytecode root ∉ out)).
Proof.
  intros zksolc zkvyper hre root. split.
  - intros h fuel Hself. unfold extractFactoryDeps.
    cbn [extractFactoryDepsRecursive].
    rewrite Hself, JsFacts.for_in_singleton. cbn [for_dependencyHash].
    by rewrite bool_decide_eq_true_2 by set_solver.
  - intros fuel Hfuel.
    destruct (extractFactoryDeps_summary zksolc zkvyper hre fuel root Hfuel)
      as (loads & out & r & Hrun & _ & Hroot & _ & Hr).
    exists loads, out, r. split_and!; [done|done|].
    intros ->. destruct Hr as [Hout%fetched_emitted _]. split.
    + clear Hrun. induction Hout as [|d b loads out Hd _ IH];
        constructor.
      * split; [|done]. intros ->. apply Hroot. by left.
      * apply IH. intros Hin. apply Hroot. by right.
    + intros Hother. eapply emitted_absent; [|exact Hout].
      intros d a Hd Ha Hb. apply Hroot.
      by rewrite <- (Hother d a Ha Hb).
Qed.

Lemma extractFactoryDeps_excludes_root_witness :
  factoryDeps Scenario.A_self = [("h1", identity Scenario.A_self)]
  ∧ extractFactoryDeps Scenario.zksolc Scenario.zkvyper Scenario.selfish 1
      Scenario.A_self = ([], Returned []).
Proof.
  split; [reflexivity|].
  apply (proj1 (extractFactoryDeps_excludes_root
                  Scenario.zksolc Scenario.zkvyper Scenario.selfish
                  Scenario.A_self) "h1" 0).
  reflexivity.
Defined.

(** ** Failing loads *)

(** C6. A → B → Missing stops with the not-found error for Missing, and
    A → B → E with E compiled by another toolchain stops with the plugin
    error naming E. For every finite store and every root, with enough fuel:
    if the load of some referenced identity other than the root's fails,
    the call throws; and whenever the call throws [e], the last load of its
    log is a referenced identity whose load failed with that very [e], which
    names it, every load before it succeeded, and no identity was loaded
    twice. A call that throws hands back no sequence. *)
Theorem load_failure_propagates :
  extractFactoryDeps Scenario.zksolc Scenario.zkvyper Scenario.dangling 5
    Scenario.A_cyclic
  = ([ReadArtifact "src:B"; ReadArtifact "src:Missing"],
     Thrown (ArtifactNotFound "src:Missing"))
  ∧ extractFactoryDeps Scenario.zksolc Scenario.zkvyper Scenario.foreign 5
      Scenario.A_cyclic
    = ([ReadArtifact "src:B"; ReadArtifact "src:E"],
       Thrown (ZkSync2JsPluginError
                 "Artifact src:E was not compiled by zksolc or zkvyper"))
  ∧ ∀ zksolc zkvyper hre root fuel,
      (size (artifacts hre) < fuel)%nat →
      (∀ d,
         referenced zksolc zkvyper hre root d →
         d ≠ identity root →
         (∀ a, loadArtifact zksolc zkvyper hre d
               ≠ ([ReadArtifact d], Returned a)) →
         ∃ trace e,
           extractFactoryDeps zksolc zkvyper hre fuel root
           = (trace, Thrown e))
      ∧ (∀ trace e,
           extractFactoryDeps zksolc zkvyper hre fuel root
           = (trace, Thrown e) →
           ∃ before d,
             trace = ReadArtifact <$> (before ++ [d])
             ∧ NoDup (before ++ [d])
             ∧ referenced zksolc zkvyper hre root d
             ∧ d ≠ identity root
             ∧ loadArtifact zksolc zkvyper hre d
               = ([ReadArtifact d], Thrown e)
             ∧ (e = ArtifactNotFound d
                ∨ e = ZkSync2JsPluginError (not_compiled_message d))
             ∧ Forall (λ d', ∃ a, loadArtifact zksolc zkvyper hre d'
                                  = ([ReadArtifact d'], Returned a)) before).
Proof.
  split_and!; [by vm_compute|by vm_compute|].
  intros zksolc zkvyper hre root fuel Hfuel.
  destruct (extractFactoryDeps_summary zksolc zkvyper hre fuel root Hfuel)
    as (loads & out & r & Hrun & Hnodup & Hroot & Hsound & Hr).
  split.
  - intros d Hd Hne Hfail. destruct r as [e|]; [by eauto|].
    destruct Hr as [Hout Hall]. destruct (Hall d Hd) as [?|Hin]; [done|].
    destruct (fetched_loaded _ _ _ _ _ _ Hout Hin) as [a Ha].
    by destruct (Hfail a).
  - intros trace e Hrun'. rewrite Hrun' in Hrun.
    destruct r as [e'|]; [|done]. injection Hrun as -> ->.
    destruct Hr as (before & d & -> & Hd & Hbefore).
    exists before, d.
    assert (d ∈ before ++ [d]) as Hin by set_solver.
    split_and!; [done|done|by apply Hsound|by intros ->|done| |done].
    destruct (loadArtifact_cases zksolc zkvyper hre d)
      as [(a & Ha & _)|(e & He & Hkind)]; congruence.
Qed.

Lemma load_failure_propagates_witness :
  (size (artifacts Scenario.dangling) < 5)%nat
  ∧ ∃ before d,
      [ReadArtifact "src:B"; ReadArtifact "src:Missing"]
      = ReadArtifact <$> (before ++ [d])
      ∧ loadArtifact Scenario.zksolc Scenario.zkvyper Scenario.dangling d
        = ([ReadArtifact d], Thrown (ArtifactNotFound "src:Missing")).
Proof.
  assert (size (artifacts Scenario.dangling) < 5)%nat as Hfuel
    by (vm_compute; lia).
  split; [exact Hfuel|].
  destruct (proj2 (proj2 (proj2 load_failure_propagates)
                     Scenario.zksolc Scenario.zkvyper Scenario.dangling
                     Scenario.A_cyclic 5 Hfuel)
              [ReadArtifact "src:B"; ReadArtifact "src:Missing"]
              (ArtifactNotFound "src:Missing"))
    as (before & d & Htrace & _ & _ & _ & Hd & _).
  { by vm_compute. }
  by exists before, d.
Defined.

(** ** The format check *)

(** C7. For every store and every name: when an artifact is stored for the
    name, [loadArtifact] throws the plugin error naming the requested
    contract exactly when the artifact's format tag is neither the zksolc
    nor the zkvyper version, and otherwise returns that artifact as it is;
    when none is stored, the store's not-found error comes through. *)
Theorem loadArtifact_format_check :
  ∀ zksolc zkvyper hre name,
    match artifacts hre !! name with
    | Some a =>
        (loadArtifact zksolc zkvyper hre name
         = ([ReadArtifact name],
            Thrown (ZkSync2JsPluginError
                      ("Artifact " +:+ name
                       +:+ " was not compiled by zksolc or zkvyper")))
         ↔ _format a ≠ zksolc ∧ _format a ≠ zkvyper)
        ∧ (loadArtifact zksolc zkvyper hre name
           = ([ReadArtifact name], Returned a)
           ↔ _format a = zksolc ∨ _format a = zkvyper)
    | None =>
        loadArtifact zksolc zkvyper hre name
        = ([ReadArtifact name], Thrown (ArtifactNotFound name))
    end.
Proof.
  intros zksolc zkvyper hre name.
  destruct (artifacts hre !! name) as [a|] eqn:Hname;
    [|by apply loadArtifact_missing].
  rewrite (loadArtifact_found _ _ _ _ _ Hname).
  pose proof (recognised_test zksolc zkvyper a) as Htest.
  unfold recognised in Htest.
  destruct (negb _ && negb _).
  - assert (¬ (_format a = zksolc ∨ _format a = zkvyper)) as Hnot
      by (intros H%Htest; discriminate).
    split; split; [tauto|done|done|tauto].
  - assert (_format a = zksolc ∨ _format a = zkvyper) as Hyes
      by by apply Htest.
    split; split; [done|tauto|done|done].
Qed.

(** ** Bytecodes are not looked at *)

(** C8. A → I → D with I abstract (bytecode "0x") returns
    ["0x", D.bytecode] without an error. For every store, root and fuel, and
    every rewriting of bytecodes, the call on the rewritten store makes the
    same loads and ends the same way, with the rewritten bytecodes as its
    result: no bytecode value, "0x" included, changes what the resolver
    does. And when a call with enough fuel returns, the bytecode of every
    referenced artifact other than the root is in the result, whatever that
    bytecode is. *)
Theorem extractFactoryDeps_ignores_bytecode :
  extractFactoryDeps Scenario.zksolc Scenario.zkvyper Scenario.with_abstract 4
    Scenario.A_over_abstract
  = ([ReadArtifact "src:I"; ReadArtifact "src:D"],
     Returned ["0x"; bytecode Scenario.D])
  ∧ (∀ zksolc zkvyper hre (f : string → string) fuel root,
       extractFactoryDeps zksolc zkvyper (map_bytecode_hre f hre) fuel
         (map_bytecode f root)
       = M_map (fmap f) (extractFactoryDeps zksolc zkvyper hre fuel root))
  ∧ ∀ zksolc zkvyper hre root fuel,
      (size (artifacts hre) < fuel)%nat →
      ∀ trace out,
        extractFactoryDeps zksolc zkvyper hre fuel root
        = (trace, Returned out) →
        ∀ d a,
          referenced zksolc zkvyper hre root d →
          d ≠ identity root →
          artifacts hre !! d = Some a →
          bytecode a ∈ out.
Proof.
  split_and!; [by vm_compute| |].
  - intros zksolc zkvyper hre f fuel root.
    apply extractFactoryDeps_map_bytecode.
  - intros zksolc zkvyper hre root fuel Hfuel trace out Hrun d a Hd Hne Ha.
    destruct (extractFactoryDeps_summary zksolc zkvyper hre fuel root Hfuel)
      as (loads & out' & r & Hrun' & _ & _ & _ & Hr).
    rewrite Hrun in Hrun'. destruct r as [e|]; [done|].
    injection Hrun' as -> <-. destruct Hr as [Hout Hall].
    destruct (Hall d Hd) as [?|Hin]; [done|].
    by eapply fetched_emits.
Qed.

Lemma extractFactoryDeps_ignores_bytecode_witness :
  (size (artifacts Scenario.with_abstract) < 4)%nat
  ∧ bytecode Scenario.I ∈ ["0x"; "0xdd"].
Proof.
  assert (size (artifacts Scenario.with_abstract) < 4)%nat as Hfuel
    by (vm_compute; lia).
  split; [exact Hfuel|].
  apply (proj2 (proj2 extractFactoryDeps_ignores_bytecode)
           Scenario.zksolc Scenario.zkvyper Scenario.with_abstract
           Scenario.A_over_abstract 4 Hfuel
           [ReadArtifact "src:I"; ReadArtifact "src:D"] ["0x"; "0xdd"]
           eq_refl "src:I" Scenario.I).
  - apply referenced_root. vm_compute. left.
  - vm_compute. discriminate.
  - reflexivity.
Defined.

(** ** No dependencies *)

(** C9. For every root whose [factoryDeps] mapping is empty, the call
    returns the empty sequence and its log is empty: no artifact is
    loaded. *)
Theorem extractFactoryDeps_no_dependencies :
  ∀ zksolc zkvyper hre root fuel,
    factoryDeps root = [] →
    extractFactoryDeps zksolc zkvyper hre (S fuel) root = ([], Returned []).
Proof.
  intros zksolc zkvyper hre root fuel Hdeps.
  unfold extractFactoryDeps. cbn [extractFactoryDepsRecursive].
  by rewrite Hdeps.
Qed.

Lemma extractFactoryDeps_no_dependencies_witness :
  factoryDeps Scenario.leaf = []
  ∧ extractFactoryDeps Scenario.zksolc Scenario.zkvyper Scenario.diamond 1
      Scenario.leaf = ([], Returned []).
Proof.
  split; [reflexivity|].
  apply (extractFactoryDeps_no_dependencies
           Scenario.zksolc Scenario.zkvyper Scenario.diamond Scenario.leaf 0).
  reflexivity.
Defined.

(** ** Abstract contracts *)

Lemma append_assoc (s1 s2 s3 : string) :
  (s1 +:+ s2) +:+ s3 = s1 +:+ s2 +:+ s3.
Proof.
  induction s1 as [|c s1 IH]; [done|].
  change (String c ((s1 +:+ s2) +:+ s3) = String c (s1 +:+ s2 +:+ s3)).
  by rewrite IH.
Qed.

(** C10. For every artifact that passes [isArtifact] and whose bytecode is
    "0x", whatever the wallet argument and the deployment type,
    [getContractFactoryFromArtifact] throws a [ZkSync2JsPluginError] with an
    empty log: no wallet was looked up and no factory constructed. The
    message holds the contract's name and the name of [getContractAt]. *)
Theorem getContractFactoryFromArtifact_abstract :
  ∀ isArtifact hre artifact walletOrOptions deploymentType,
    isArtifact artifact = true →
    bytecode artifact = "0x" →
    ∃ message,
      getContractFactoryFromArtifact isArtifact hre artifact walletOrOptions
        deploymentType
      = ([], Thrown (ZkSync2JsPluginError message))
      ∧ message = abstract_message (contractName artifact)
      ∧ (∃ before after,
           message = before +:+ contractName artifact +:+ after)
      ∧ (∃ before after,
           message = before +:+ "getContractAt" +:+ after).
Proof.
  intros isArtifact hre artifact walletOrOptions deploymentType Hvalid Hcode.
  exists (abstract_message (contractName artifact)). split_and!.
  - unfold getContractFactoryFromArtifact. by rewrite Hvalid, Hcode.
  - done.
  - by eexists _, _.
  - unfold abstract_message.
    exists ("You are trying to create a contract factory for the contract "
            +:+ contractName artifact
            +:+ ", which is abstract and can't be deployed." +:+ newline
            +:+ "If you want to call a contract using "
            +:+ contractName artifact
            +:+ " as its interface use the " +:+ dquote),
           (dquote +:+ " function instead.").
    by rewrite !append_assoc.
Qed.

Lemma getContractFactoryFromArtifact_abstract_witness :
  bytecode Scenario.I = "0x"
  ∧ ∃ message,
      getContractFactoryFromArtifact (λ _, true) Scenario.with_abstract
        Scenario.I Undefined None
      = ([], Thrown (ZkSync2JsPluginError message)).
Proof.
  split; [reflexivity|].
  destruct (getContractFactoryFromArtifact_abstract
              (λ _, true) Scenario.with_abstract Scenario.I Undefined None
              eq_refl eq_refl) as (message & Hthrown & _).
  by exists message.
Defined.

(** A deployable artifact without a wallet does reach the wallet lookup, and
    with a wallet the factory is constructed. *)
Example getContractFactoryFromArtifact_deployable :
  getContractFactoryFromArtifact (λ _, true) Scenario.diamond Scenario.D
    Undefined None
  = ([GetWalletsFromAccount],
     Thrown (ZkSync2JsPluginError
               "Accounts are not configured for this network"))
  ∧ getContractFactoryFromArtifact (λ _, true) Scenario.diamond Scenario.D
      (IsFactoryOptions (mkFactoryOptions (Some "w"))) None
    = ([NewContractFactory (mkContractFactory [] "0xdd" "w" None)],
       Returned (mkContractFactory [] "0xdd" "w" None)).
Proof. split; reflexivity. Qed.

(** * Further properties of the helpers *)

(** ** Wallet selection *)

Lemma getWallet_index hre n :
  getWallet hre (AccountNumber n)
  = ([GetWalletsFromAccount],
     match accountWallets hre with
     | inl e => Thrown e
     | inr wallets =>
         match wallets !! n with
         | Some w => Returned w
         | None =>
             Thrown (ZkSync2JsPluginError
               (if Nat.eqb n 0
                then "Accounts are not configured for this network"
                else "Account private key with specified index is not found"))
         end
     end).
Proof.
  unfold getWallet, getWalletsFromAccount, bind. simpl.
  destruct (accountWallets hre) as [e|wallets]; [done|]. simpl.
  destruct n as [|n]; simpl.
  - by destruct wallets.
  - destruct (Nat.leb_spec (length wallets) (S n)) as [Hle|Hlt]; simpl.
    + by rewrite (lookup_ge_None_2 wallets (S n)).
    + destruct (lookup_lt_is_Some_2 wallets (S n) Hlt) as [w Hw].
      rewrite Hw. destruct wallets; [simpl in Hlt; lia|done].
Qed.


(** ** Contract factories *)





(** ** Contracts at an address *)

(** The default wallet, as the helpers that take [wallet?] resolve it. *)
Lemma default_wallet hre :
  helper (getWallet hre NoKeyOrIndex)
  = ([Helper GetWalletsFromAccount],
     match accountWallets hre with
     | inl e => Thrown e
     | inr [] =>
         Thrown (ZkSync2JsPluginError
                   "Accounts are not configured for this network")
     | inr (w :: _) => Returned w
     end).
Proof.
  pose proof (getWallet_index hre 0) as Hwallet.
  change (getWallet hre (AccountNumber 0))
    with (getWallet hre NoKeyOrIndex) in Hwallet.
  rewrite Hwallet. unfold helper. simpl.
  by destruct (accountWallets hre) as [e|[|w wallets]].
Qed.

(** X4. [getContractAt] with an ABI never falls back to the provider: the
    contract it returns is at the given address, has the given ABI, and
    runs through a wallet -- the one given or, without one, the first wallet
    of the network's accounts. Without a wallet and without accounts it
    throws "Accounts are not configured" and constructs no contract. It
    reads no artifact. *)
Theorem getContractAt_by_abi :
  ∀ zksolc zkvyper isArtifact hre abi address wallet,
    let call :=
      getContractAt zksolc zkvyper isArtifact hre (Abi abi) address wallet in
    (∀ log c,
       call = (log, Returned c) →
       ∃ w,
         c = mkContract address abi (Some (WalletRunner w))
         ∧ (wallet = Some w
            ∨ wallet = None ∧ ∃ ws, accountWallets hre = inr (w :: ws))
         ∧ ∃ before, log = before ++ [NewContract c]
                     ∧ (∀ name, Helper (ReadArtifact name) ∉ before))
    ∧ (wallet = None → accountWallets hre = inr [] →
       call = ([Helper GetWalletsFromAccount],
               Thrown (ZkSync2JsPluginError
                         "Accounts are not configured for this network"))).
Proof.
  intros zksolc zkvyper isArtifact hre abi address wallet call.
  subst call. unfold getContractAt. destruct wallet as [w|].
  - split; [|done]. intros log c [= <- <-]. exists w.
    split_and!; [done|by left|]. exists []. split; [done|].
    intros name. set_solver.
  - rewrite default_wallet.
    destruct (accountWallets hre) as [e|[|w ws]]; simpl.
    + split; [|done]. by intros log c.
    + split; [|done]. by intros log c.
    + split; [|done]. intros log c [= <- <-]. exists w.
      split_and!; [done|right; eauto|].
      exists [Helper GetWalletsFromAccount]. split; [done|].
      intros name. set_solver.
Qed.

Lemma getContractAt_by_abi_witness :
  getContractAt Scenario.zksolc Scenario.zkvyper (λ _, true)
    Scenario.diamond (Abi ["f"]) "0xadd" (Some "w")
  = ([NewContract (mkContract "0xadd" ["f"] (Some (WalletRunner "w")))],
     Returned (mkContract "0xadd" ["f"] (Some (WalletRunner "w"))))
  ∧ ∃ w, mkContract "0xadd" ["f"] (Some (WalletRunner "w"))
         = mkContract "0xadd" ["f"] (Some (WalletRunner w)).
Proof.
  split; [reflexivity|].
  destruct (proj1 (getContractAt_by_abi
                     Scenario.zksolc Scenario.zkvyper (λ _, true)
                     Scenario.diamond ["f"] "0xadd" (Some "w"))
              _ _ eq_refl) as (w & Hc & _).
  by exists w.
Defined.

(** X5. [getContractAtFromArtifact] rejects an artifact that fails
    [isArtifact] before it asks for a wallet or constructs anything. An
    artifact that passes is accepted whatever its bytecode, the abstract
    "0x" included: with a wallet, the contract is constructed once, at the
    given address, with the artifact's ABI and that wallet as its runner,
    and it is not re-connected to the provider. *)
Theorem getContractAtFromArtifact_cases :
  ∀ isArtifact hre artifact address wallet,
    (isArtifact artifact = false →
     ∃ message,
       getContractAtFromArtifact isArtifact hre artifact address wallet
       = ([], Thrown (ZkSync2JsPluginError message)))
    ∧ (isArtifact artifact = true →
       ∀ w,
         wallet = Some w →
         let contract :=
           mkContract address (abi artifact) (Some (WalletRunner w)) in
         getContractAtFromArtifact isArtifact hre artifact address wallet
         = ([NewContract contract], Returned contract))
    ∧ (∀ log c,
         getContractAtFromArtifact isArtifact hre artifact address wallet
         = (log, Returned c) →
         (∀ c', Connect c' ∉ log)
         ∧ ∃ w, c = mkContract address (abi artifact) (Some (WalletRunner w))).
Proof.
  intros isArtifact hre artifact address wallet.
  unfold getContractAtFromArtifact. split_and!.
  - intros ->. simpl. eauto.
  - intros -> w ->. done.
  - intros log c. destruct (isArtifact artifact); simpl; [|done].
    destruct wallet as [w|].
    + intros [= <- <-]. split; [intros c'; set_solver|eauto].
    + rewrite default_wallet.
      destruct (accountWallets hre) as [e|[|w ws]]; simpl; try done.
      intros [= <- <-]. split; [intros c'; set_solver|eauto].
Qed.

Lemma getContractAtFromArtifact_cases_witness :
  bytecode Scenario.I = "0x"
  ∧ getContractAtFromArtifact (λ _, true) Scenario.with_abstract Scenario.I
      "0xadd" (Some "w")
    = ([NewContract (mkContract "0xadd" [] (Some (WalletRunner "w")))],
       Returned (mkContract "0xadd" [] (Some (WalletRunner "w")))).
Proof.
  split; [reflexivity|].
  exact (proj1 (proj2 (getContractAtFromArtifact_cases
                         (λ _, true) Scenario.with_abstract Scenario.I
                         "0xadd" (Some "w")))
           eq_refl "w" eq_refl).
Defined.

(** X6. [getContractAt] by name reads the artifact once; when the artifact
    is missing or was not compiled by zksolc or zkvyper, that error comes
    out and nothing else has happened. Otherwise it goes on exactly as
    [getContractAtFromArtifact] does on the stored artifact. *)
Theorem getContractAt_by_name :
  ∀ zksolc zkvyper isArtifact hre name address wallet,
    let call :=
      getContractAt zksolc zkvyper isArtifact hre (Name name) address wallet in
    match artifacts hre !! name with
    | None =>
        call = ([Helper (ReadArtifact name)], Thrown (ArtifactNotFound name))
    | Some a =>
        (¬ recognised zksolc zkvyper a →
         call = ([Helper (ReadArtifact name)],
                 Thrown (ZkSync2JsPluginError (not_compiled_message name))))
        ∧ (recognised zksolc zkvyper a →
           let rest :=
             getContractAtFromArtifact isArtifact hre a address wallet in
           call = (Helper (ReadArtifact name) :: rest.1, rest.2))
    end.
Proof.
  intros zksolc zkvyper isArtifact hre name address wallet call.
  subst call. unfold getContractAt.
  destruct (artifacts hre !! name) as [a|] eqn:Hname.
  - rewrite (loadArtifact_found _ _ _ _ _ Hname).
    pose proof (recognised_test zksolc zkvyper a) as Htest.
    destruct (negb _ && negb _).
    + assert (¬ recognised zksolc zkvyper a) as Hnot
        by (intros H%Htest; discriminate).
      split; [done|done].
    + assert (recognised zksolc zkvyper a) as Hyes by by apply Htest.
      split; [done|]. intros _. done.
  - by rewrite (loadArtifact_missing _ _ _ _ Hname).
Qed.

Lemma getContractAt_by_name_witness :
  recognised Scenario.zksolc Scenario.zkvyper Scenario.I
  ∧ getContractAt Scenario.zksolc Scenario.zkvyper (λ _, true)
      Scenario.with_abstract (Name "src:I") "0xadd" (Some "w")
    = ([Helper (ReadArtifact "src:I");
        NewContract (mkContract "0xadd" [] (Some (WalletRunner "w")))],
       Returned (mkContract "0xadd" [] (Some (WalletRunner "w")))).
Proof.
  assert (recognised Scenario.zksolc Scenario.zkvyper Scenario.I) as Hfmt
    by (by left).
  split; [exact Hfmt|].
  pose proof (getContractAt_by_name
                Scenario.zksolc Scenario.zkvyper (λ _, true)
                Scenario.with_abstract "src:I" "0xadd" (Some "w")) as H.
  change (artifacts Scenario.with_abstract !! "src:I")
    with (Some Scenario.I) in H.
  exact (proj2 H Hfmt).
Defined.

(** ** Deployment *)

Lemma deploys_helper (t : list event) : deploys (Helper <$> t) = [].
Proof. unfold deploys. induction t as [|ev t IH]; [done|]. by simpl. Qed.

Lemma deploys_app (l1 l2 : list action) :
  deploys (l1 ++ l2) = deploys l1 ++ deploys l2.
Proof. apply omap_app. Qed.

Lemma hexlify_each_log sdk vals : (hexlify_each sdk vals).1 = [].
Proof.
  induction vals as [|val vals IH]; [done|]. simpl.
  destruct (hexlify sdk val) as [e|hex]; [done|].
  unfold run_bind. destruct (hexlify_each sdk vals) as [t [rest|e|]];
    simpl in *; by rewrite ?IH.
Qed.

(** [hexlify_each] returns the hexlified values, one for one, and throws
    as soon as one is rejected. *)
Lemma hexlify_each_returned sdk vals hexes :
  (hexlify_each sdk vals).2 = Returned hexes ↔
  Forall2 (λ val hex, hexlify sdk val = inr hex) vals hexes.
Proof.
  revert hexes. induction vals as [|val vals IH]; intros hexes; simpl.
  - split.
    + intros [= <-]. constructor.
    + by intros ->%Forall2_nil_inv_l.
  - destruct (hexlify sdk val) as [e|hex] eqn:Hval; simpl.
    + split; [done|]. intros (hex & rest & Hhex & _ & _)%Forall2_cons_inv_l.
      congruence.
    + unfold run_bind.
      destruct (hexlify_each sdk vals) as [t [rest|e|]] eqn:Heach; simpl in *.
      * split.
        -- intros [= <-]. constructor; [done|]. by apply IH.
        -- intros (hex' & rest' & Hhex & Hrest & ->)%Forall2_cons_inv_l.
           apply IH in Hrest. congruence.
      * split; [done|].
        intros (hex' & rest' & _ & Hrest & _)%Forall2_cons_inv_l.
        by apply IH in Hrest.
      * split; [done|].
        intros (hex' & rest' & _ & Hrest & _)%Forall2_cons_inv_l.
        by apply IH in Hrest.
Qed.


Section Deployment.

Variables zksolc zkvyper : string.
Variable hre : HardhatRuntimeEnvironment.
Variable sdk : Sdk.

(** [deployContract] in stages: what the wallet, the resolver and
    [hexlify] gave decides how far it gets. *)
Lemma deployContract_stages fuel artifact wallet arguments overrides
    additional :
  let resolved :=
    match wallet with
    | None => helper (getWallet hre NoKeyOrIndex)
    | Some w => run_ret w
    end in
  let base := extractFactoryDeps zksolc zkvyper hre fuel artifact in
  let extra := hexlify_each sdk (default [] additional) in
  deployContract zksolc zkvyper hre sdk fuel artifact wallet arguments
    overrides additional
  = match resolved.2 with
    | Returned w =>
        let factory :=
          mkContractFactory (abi artifact) (bytecode artifact) w None in
        let built := resolved.1 ++ [Helper (NewContractFactory factory)]
                     ++ (Helper <$> base.1) in
        match base.2, extra.2 with
        | Returned baseDeps, Returned additionalDeps =>
            let tx :=
              mkDeployOverrides
                (from_option otherOverrides ∅ overrides)
                (<["factoryDeps" := JsStrings (baseDeps ++ additionalDeps)]>
                   (<["salt" := JsString (ZeroHash sdk)]>
                      (default ∅ (overrides ≫= customData)))) in
            match deployed sdk factory arguments tx with
            | inl e => (built ++ [Deploy factory arguments tx], Thrown e)
            | inr contract =>
                (built ++ [Deploy factory arguments tx;
                           WaitForDeployment contract],
                 match waited sdk contract with
                 | Some e => Thrown e
                 | None => Returned contract
                 end)
            end
        | Returned _, Thrown e => (built, Thrown e)
        | Returned _, OutOfFuel => (built, OutOfFuel)
        | Thrown e, _ => (built, Thrown e)
        | OutOfFuel, _ => (built, OutOfFuel)
        end
    | Thrown e => (resolved.1, Thrown e)
    | OutOfFuel => (resolved.1, OutOfFuel)
    end.
Proof.
  intros resolved base extra. unfold deployContract.
  assert (match additional with
          | Some vals => hexlify_each sdk vals
          | None => run_ret []
          end = extra) as -> by (by destruct additional).
  assert (match overrides with
          | Some o => default ∅ (customData o)
          | None => ∅
          end = default ∅ (overrides ≫= customData)) as ->
    by (by destruct overrides).
  assert (match overrides with
          | Some o => otherOverrides o
          | None => ∅
          end = from_option otherOverrides ∅ overrides) as ->
    by (by destruct overrides).
  pose proof (hexlify_each_log sdk (default [] additional)) as Hlog.
  fold resolved base extra. fold extra in Hlog.
  clearbody resolved base extra.
  destruct resolved as [tw [w|e|]]; [|done|done].
  destruct base as [tb [baseDeps|e|]];
    [|unfold run_bind, helper; simpl; by rewrite ?app_nil_r..].
  destruct extra as [te [additionalDeps|e|]]; simpl in Hlog; subst te;
    [|unfold run_bind, helper; simpl; by rewrite ?app_nil_r..].
  unfold run_bind, helper, deploy, waitForDeployment, run_bind. simpl.
  destruct (deployed sdk _ _ _) as [e|contract]; simpl.
  - by rewrite ?app_nil_r, <- ?app_assoc.
  - destruct (waited sdk contract); simpl;
      by rewrite ?app_nil_r, <- ?app_assoc.
Qed.

End Deployment.

Lemma resolved_wallet_log hre (wallet : option Wallet) tw r :
  match wallet with
  | None => helper (getWallet hre NoKeyOrIndex)
  | Some w => run_ret w
  end = (tw, r) →
  deploys tw = [] ∧ ∀ w, wallet = Some w → r = Returned w.
Proof.
  destruct wallet as [w|].
  - intros [= <- <-]. split; [done|]. by intros ? [= <-].
  - intros [= <- <-]. split; [apply deploys_helper|done].
Qed.

(** X7. Whatever the arguments, [deployContract] calls [factory.deploy] at
    most once, and when it does: the factory holds the artifact's ABI and
    bytecode, the wallet given, and no deployment type; the constructor
    arguments are passed as they came; the overrides other than
    [customData] are passed as they came; and [customData] holds the zero
    hash as [salt] and, as [factoryDeps], the bytecodes the resolver returned
    followed by the hexlified additional ones, every other field of the
    caller's [customData] being kept. So a [salt] or [factoryDeps] the caller
    put into [customData] is overwritten, and no deployment is attempted
    unless the resolver returned and [hexlify] took every additional
    value. *)
Theorem deployContract_deploy_arguments :
  ∀ zksolc zkvyper hre sdk fuel artifact wallet arguments overrides
    additional factory arguments' tx,
    let log :=
      (deployContract zksolc zkvyper hre sdk fuel artifact wallet arguments
         overrides additional).1 in
    (factory, arguments', tx) ∈ deploys log →
    deploys log = [(factory, arguments', tx)]
    ∧ arguments' = arguments
    ∧ cf_abi factory = abi artifact
    ∧ cf_bytecode factory = bytecode artifact
    ∧ cf_deploymentType factory = None
    ∧ (∀ w, wallet = Some w → cf_wallet factory = w)
    ∧ deploy_overrides tx = from_option otherOverrides ∅ overrides
    ∧ deploy_customData tx !! "salt" = Some (JsString (ZeroHash sdk))
    ∧ (∃ t baseDeps additionalDeps,
         extractFactoryDeps zksolc zkvyper hre fuel artifact
         = (t, Returned baseDeps)
         ∧ Forall2 (λ val hex, hexlify sdk val = inr hex)
             (default [] additional) additionalDeps
         ∧ deploy_customData tx !! "factoryDeps"
           = Some (JsStrings (baseDeps ++ additionalDeps)))
    ∧ (∀ key,
         key ≠ "salt" → key ≠ "factoryDeps" →
         deploy_customData tx !! key
         = default ∅ (overrides ≫= customData) !! key).
Proof.
  intros zksolc zkvyper hre sdk fuel artifact wallet arguments overrides
    additional factory arguments' tx log. subst log.
  rewrite deployContract_stages.
  destruct (match wallet with
            | None => helper (getWallet hre NoKeyOrIndex)
            | Some w => run_ret w
            end) as [tw r] eqn:Hres.
  apply resolved_wallet_log in Hres as [Hresolved Hgiven].
  destruct r as [w|e|]; cbn [fst snd];
    [|by rewrite Hresolved; intros ?%elem_of_nil..].
  destruct (extractFactoryDeps zksolc zkvyper hre fuel artifact)
    as [tb [baseDeps|e|]] eqn:Hbase; cbn [fst snd];
    [|rewrite !deploys_app, Hresolved, deploys_helper;
      by intros ?%elem_of_nil..].
  destruct (hexlify_each sdk (default [] additional))
    as [te [additionalDeps|e|]] eqn:Hextra; cbn [fst snd];
    [|rewrite !deploys_app, Hresolved, deploys_helper;
      by intros ?%elem_of_nil..].
  assert (Forall2 (λ val hex, hexlify sdk val = inr hex)
            (default [] additional) additionalDeps) as Hhex.
  { apply hexlify_each_returned. by rewrite Hextra. }
  set (f := mkContractFactory (abi artifact) (bytecode artifact) w None).
  set (o := mkDeployOverrides _ _).
  cbn zeta.
  assert (∀ tail (res : outcome Contract),
            deploys
              ((tw ++ [Helper (NewContractFactory f)] ++ (Helper <$> tb))
               ++ Deploy f arguments o :: tail, res).1
            = (f, arguments, o) :: deploys tail) as Hdeploy.
  { intros tail res. cbn [fst].
    by rewrite !deploys_app, Hresolved, deploys_helper. }
  destruct (deployed sdk f arguments o) as [e|contract];
    rewrite Hdeploy; cbn [deploys omap];
    intros [= -> -> ->]%list_elem_of_singleton.
  all: split_and!; try done.
  all: try (intros w' Hw'; apply Hgiven in Hw'; subst f; simpl; congruence).
  all: try (subst o; simpl; by rewrite lookup_insert_ne, lookup_insert_eq).
  all: try (exists tb, baseDeps, additionalDeps; split_and!; [done|done|];
            subst o; simpl; by rewrite lookup_insert_eq).
  all: intros key Hsalt Hdeps; subst o; simpl; by rewrite !lookup_insert_ne.
Qed.

Lemma deployContract_deploy_arguments_witness :
  let overrides :=
    mkOverrides (Some {["salt" := JsString "0x99"]})
      {["gasLimit" := JsString "1"]} in
  let factory := mkContractFactory [] "0xaa" "w" None in
  let tx :=
    mkDeployOverrides {["gasLimit" := JsString "1"]}
      (<["factoryDeps" := JsStrings ["0xbb"; "0xdd"; "0xcc"; "0x01"]]>
         (<["salt" := JsString "0x00"]> {["salt" := JsString "0x99"]})) in
  (factory, ["arg"], tx)
  ∈ deploys (deployContract Scenario.zksolc Scenario.zkvyper Scenario.diamond
               sample_sdk 5 Scenario.A (Some "w") ["arg"] (Some overrides)
               (Some ["0x01"])).1
  ∧ deploy_customData tx !! "salt" = Some (JsString (ZeroHash sample_sdk)).
Proof.
  intros overrides factory tx.
  assert ((factory, ["arg"], tx)
          ∈ deploys (deployContract Scenario.zksolc Scenario.zkvyper
                       Scenario.diamond sample_sdk 5 Scenario.A (Some "w")
                       ["arg"] (Some overrides) (Some ["0x01"])).1) as Hin.
  { vm_compute. constructor. }
  split; [exact Hin|].
  exact (proj1 (proj2 (proj2 (proj2 (proj2 (proj2 (proj2 (proj2
           (deployContract_deploy_arguments
              Scenario.zksolc Scenario.zkvyper Scenario.diamond sample_sdk 5
              Scenario.A (Some "w") ["arg"] (Some overrides) (Some ["0x01"])
              factory ["arg"] tx Hin))))))))).
Defined.

(** X8. When [deployContract] returns a contract, its last two calls were
    [factory.deploy], which gave that contract, and [waitForDeployment] on
    it, which did not fail; nothing was deployed before. *)
Theorem deployContract_returns :
  ∀ zksolc zkvyper hre sdk fuel artifact wallet arguments overrides
    additional log contract,
    deployContract zksolc zkvyper hre sdk fuel artifact wallet arguments
      overrides additional = (log, Returned contract) →
    ∃ before factory tx,
      log = before ++ [Deploy factory arguments tx;
                       WaitForDeployment contract]
      ∧ deploys before = []
      ∧ deployed sdk factory arguments tx = inr contract
      ∧ waited sdk contract = None.
Proof.
  intros zksolc zkvyper hre sdk fuel artifact wallet arguments overrides
    additional log contract.
  rewrite deployContract_stages.
  destruct (match wallet with
            | None => helper (getWallet hre NoKeyOrIndex)
            | Some w => run_ret w
            end) as [tw r] eqn:Hres.
  apply resolved_wallet_log in Hres as [Hresolved _].
  destruct r as [w|e|]; cbn [fst snd]; [|done|done].
  destruct (extractFactoryDeps zksolc zkvyper hre fuel artifact)
    as [tb [baseDeps|e|]]; cbn [fst snd]; [|done|done].
  destruct (hexlify_each sdk (default [] additional))
    as [te [additionalDeps|e|]]; cbn [fst snd]; [|done|done].
  cbn zeta.
  destruct (deployed sdk _ arguments _) as [e|c] eqn:Hdeployed; [done|].
  destruct (waited sdk c) as [e|] eqn:Hwaited; [done|].
  intros [= <- <-]. eexists _, _, _. split_and!; [done| |done|done].
  rewrite deploys_app, Hresolved.
  exact (deploys_helper
           (NewContractFactory
              (mkContractFactory (abi artifact) (bytecode artifact) w None)
            :: tb)).
Qed.

Lemma deployContract_returns_witness :
  ∃ before factory tx,
    [Helper (NewContractFactory (mkContractFactory [] "0xdd" "w" None));
     Deploy (mkContractFactory [] "0xdd" "w" None) []
       (mkDeployOverrides ∅
          (<["factoryDeps" := JsStrings []]>
             (<["salt" := JsString "0x00"]> ∅)));
     WaitForDeployment (mkContract "0xc0de" [] (Some (WalletRunner "w")))]
    = before ++ [Deploy factory [] tx;
                 WaitForDeployment
                   (mkContract "0xc0de" [] (Some (WalletRunner "w")))]
    ∧ deploys before = [].
Proof.
  destruct (deployContract_returns
              Scenario.zksolc Scenario.zkvyper Scenario.diamond sample_sdk 1
              Scenario.D (Some "w") [] None None _ _ eq_refl)
    as (before & factory & tx & Hlog & Hbefore & _).
  by exists before, factory, tx.
Defined.










(** ** What the resolver reads of the store *)

Section Agreement.

Variables zksolc zkvyper : string.
Variables hre hre' : HardhatRuntimeEnvironment.

Lemma loadArtifact_agree name :
  artifacts hre' !! name = artifacts hre !! name →
  loadArtifact zksolc zkvyper hre' name
  = loadArtifact zksolc zkvyper hre name.
Proof.
  intros Hname. unfold loadArtifact, readArtifact. by rewrite Hname.
Qed.

(** Two stores that agree outside the visited set. *)
Local Abbreviation agree visited :=
  (∀ name, name ∉ (visited : gset string) →
           artifacts hre' !! name = artifacts hre !! name).

Lemma for_dependencyHash_agree recurse recurse' :
  (∀ a visited,
     agree visited →
     recurse' a visited = recurse a visited
     ∧ ∀ t deps visited',
         recurse a visited = (t, Returned (deps, visited')) →
         visited ⊆ visited') →
  ∀ entries acc visited,
    agree visited →
    for_dependencyHash zksolc zkvyper hre' recurse' entries acc visited
    = for_dependencyHash zksolc zkvyper hre recurse entries acc visited
    ∧ ∀ t deps visited',
        for_dependencyHash zksolc zkvyper hre recurse entries acc visited
        = (t, Returned (deps, visited')) →
        visited ⊆ visited'.
Proof.
  intros Hrec. induction entries as [|[h d] entries IH];
    intros acc visited Hagree.
  { split; [done|]. by intros t deps visited' [= _ _ <-]. }
  simpl. case_bool_decide as Hseen; [by apply IH|].
  rewrite (loadArtifact_agree d) by by apply Hagree.
  destruct (loadArtifact zksolc zkvyper hre d) as [tl [a|e|]];
    [|by split..].
  rewrite !(bind_returned (tl, Returned a) _ tl a eq_refl). cbn beta.
  assert (agree (visited ∪ {[d]})) as Hagree1.
  { intros name Hname. apply Hagree. set_solver. }
  destruct (Hrec a (visited ∪ {[d]}) Hagree1) as [-> Hgrows].
  destruct (recurse a (visited ∪ {[d]})) as [tr [[deps1 visited1]|e|]];
    [|by split..].
  rewrite !(bind_returned (tr, Returned (deps1, visited1)) _ tr
              (deps1, visited1) eq_refl).
  cbn beta iota.
  specialize (Hgrows _ _ _ eq_refl).
  assert (agree visited1) as Hagree2.
  { intros name Hname. apply Hagree. set_solver. }
  destruct (IH ((acc ++ [bytecode a]) ++ deps1) visited1 Hagree2)
    as [Hsame Hgrows2].
  rewrite Hsame. split; [done|].
  intros t deps visited'.
  destruct (for_dependencyHash zksolc zkvyper hre recurse entries
              ((acc ++ [bytecode a]) ++ deps1) visited1)
    as [t2 [[deps2 visited2]|e|]]; [|done..].
  cbn [fst snd]. intros [= _ _ <-].
  specialize (Hgrows2 _ _ _ eq_refl). set_solver.
Qed.

Lemma extractFactoryDepsRecursive_agree fuel :
  ∀ a visited,
    agree visited →
    extractFactoryDepsRecursive zksolc zkvyper hre' fuel a visited
    = extractFactoryDepsRecursive zksolc zkvyper hre fuel a visited
    ∧ ∀ t deps visited',
        extractFactoryDepsRecursive zksolc zkvyper hre fuel a visited
        = (t, Returned (deps, visited')) →
        visited ⊆ visited'.
Proof.
  induction fuel as [|fuel IH]; intros a visited Hagree; [by split|].
  simpl. by apply for_dependencyHash_agree.
Qed.

End Agreement.

(** X12. The resolver never reads what the store holds under the root's own
    identity: two stores that agree on every other name give the same log
    and the same result for that root. In particular the root artifact
    need not be in the store at all. *)
Theorem extractFactoryDeps_root_entry_unused :
  ∀ zksolc zkvyper hre hre' fuel root,
    (∀ name, name ≠ identity root →
             artifacts hre' !! name = artifacts hre !! name) →
    extractFactoryDeps zksolc zkvyper hre' fuel root
    = extractFactoryDeps zksolc zkvyper hre fuel root.
Proof.
  intros zksolc zkvyper hre hre' fuel root Hagree.
  unfold extractFactoryDeps.
  destruct (extractFactoryDepsRecursive_agree zksolc zkvyper hre hre' fuel
              root (∅ ∪ {[identity root]})) as [-> _]; [|done].
  intros name Hname. apply Hagree. set_solver.
Qed.

Lemma extractFactoryDeps_root_entry_unused_witness :
  (∀ name, name ≠ identity Scenario.A →
           artifacts (mkHre (delete "src:A" (artifacts Scenario.diamond))
                        (inr [])) !! name
           = artifacts Scenario.diamond !! name)
  ∧ extractFactoryDeps Scenario.zksolc Scenario.zkvyper
      (mkHre (delete "src:A" (artifacts Scenario.diamond)) (inr [])) 5
      Scenario.A
    = extractFactoryDeps Scenario.zksolc Scenario.zkvyper Scenario.diamond 5
        Scenario.A.
Proof.
  assert (∀ name, name ≠ identity Scenario.A →
                  artifacts (mkHre (delete "src:A"
                                      (artifacts Scenario.diamond))
                               (inr [])) !! name
                  = artifacts Scenario.diamond !! name) as Hagree.
  { intros name Hname. simpl. apply lookup_delete_ne.
    intros <-. by apply Hname. }
  split; [exact Hagree|].
  exact (extractFactoryDeps_root_entry_unused
           Scenario.zksolc Scenario.zkvyper Scenario.diamond _ 5 Scenario.A
           Hagree).
Defined.

(** ** The default wallet *)


